(** * AntiRef identity clustering: a model of [cluster.ipynb]

    The notebook chains seven [mmseqs linclust] passes at decreasing identity
    thresholds, loads the per-level assignment tables into dictionaries,
    writes the cluster manifest and computes the clustering efficiencies.
    Every cell that carries logic is embedded below as a function of the same
    name; Python exceptions are values of [exn], files are lists of lines,
    and the external shell is an oracle of the section that models it. *)

From Stdlib Require Import ZArith QArith Ascii String List Lia.
From Stdlib Require Import OrdersEx Sorting Permutation.
From stdpp Require Import base list strings pretty.

Close Scope Q_scope.

(** ** Python values the notebook relies on *)

(** A dictionary key as it appears in a [KeyError]: thresholds are [int]s,
    sequence identifiers are [str]s. *)
Inductive pykey : Type :=
  | KInt (n : nat)
  | KStr (s : string).

(** The exceptions the modelled cells can raise. *)
Inductive exn : Type :=
  | KeyError (k : pykey)
  | IndexError
  | TypeError
  | ZeroDivisionError
  | ValueError
  | AttributeError
  | FileNotFoundError (path : string).

(** Outcome of a statement: a value, or an uncaught exception. *)
Inductive result (A : Type) : Type :=
  | Ok (a : A)
  | Raise (e : exn).
Arguments Ok {A} a.
Arguments Raise {A} e.

#[global] Instance result_ret : MRet result := fun A a => Ok a.
#[global] Instance result_bind : MBind result := fun A B f m =>
  match m with
  | Ok a => f a
  | Raise e => Raise e
  end.

#[global] Instance pykey_eq_dec : EqDecision pykey.
Proof. solve_decision. Defined.
#[global] Instance exn_eq_dec : EqDecision exn.
Proof. solve_decision. Defined.

(** ** Insertion-ordered dictionaries

    A Python [dict] keeps its keys in the order of their first insertion, and
    assigning to a key that is already present replaces the value where it
    stands.  The manifest iterates [keys()], so the order is part of the
    model: a dictionary is an association list without repeated keys. *)
Module PyDict.
Section Dict.
Context {K V : Type} `{EqDecision K}.

Definition t : Type := list (K * V).

Definition empty : t := [].

(** [d[k] = v] *)
Fixpoint set (k : K) (v : V) (d : t) : t :=
  match d with
  | [] => [(k, v)]
  | (k', v') :: d' =>
      if decide (k = k') then (k', v) :: d' else (k', v') :: set k v d'
  end.

(** [d.get(k)] *)
Fixpoint find (k : K) (d : t) : option V :=
  match d with
  | [] => None
  | (k', v') :: d' => if decide (k = k') then Some v' else find k d'
  end.

(** [d.keys()] *)
Definition keys (d : t) : list K := map fst d.

(** [d.values()] *)
Definition values (d : t) : list V := map snd d.

(** [d[k]]: the value, or [KeyError(k)]. *)
Definition getitem (inj : K -> pykey) (d : t) (k : K) : result V :=
  match find k d with
  | Some v => Ok v
  | None => Raise (KeyError (inj k))
  end.
End Dict.
Arguments t : clear implicits.
End PyDict.

(** ** [str.strip] and [str.split]

    Characters are code points below 256.  [is_space] is [str.isspace] on
    that range: TAB, LF, VT, FF, CR, the four separators FS, GS, RS and US,
    the blank, NEL and the no-break space. *)
Definition is_space (c : ascii) : bool :=
  let n := nat_of_ascii c in
  ((9 <=? n) && (n <=? 13)) || ((28 <=? n) && (n <=? 32))
  || (n =? 133) || (n =? 160).

Fixpoint lstrip (s : string) : string :=
  match s with
  | EmptyString => EmptyString
  | String c s' => if is_space c then lstrip s' else s
  end.

Fixpoint rstrip (s : string) : string :=
  match s with
  | EmptyString => EmptyString
  | String c s' =>
      match rstrip s' with
      | EmptyString => if is_space c then EmptyString else String c EmptyString
      | r => String c r
      end
  end.

(** [s.strip()] *)
Definition strip (s : string) : string := lstrip (rstrip s).

(** A finished token is kept only when it is not empty: runs of whitespace
    separate tokens and never produce empty ones. *)
Definition push_token (tok : string) (toks : list string) : list string :=
  match tok with
  | EmptyString => toks
  | _ => tok :: toks
  end.

(** Scans from the right: the pending token (the characters seen since the
    last whitespace) and the tokens completed after it. *)
Fixpoint split_scan (s : string) : string * list string :=
  match s with
  | EmptyString => (EmptyString, [])
  | String c s' =>
      let '(tok, toks) := split_scan s' in
      if is_space c then (EmptyString, push_token tok toks)
      else (String c tok, toks)
  end.

(** [s.split()] with no separator. *)
Definition split (s : string) : list string :=
  let '(tok, toks) := split_scan s in push_token tok toks.

(** The tokens of one line of an assignment table: [line.strip().split()]. *)
Definition tokens (line : string) : list string := split (strip line).

(** ** Configuration cell [db3a5e7b] *)

Definition thresholds : list nat := [100; 99; 98; 96; 94; 92; 90]%nat.

Definition parent_lookup : PyDict.t nat string :=
  [ (100, "./data/antiref/seqdb/init");
    (99, "./data/antiref/seqdb/antiref100");
    (98, "./data/antiref/seqdb/antiref99");
    (96, "./data/antiref/seqdb/antiref98");
    (94, "./data/antiref/seqdb/antiref96");
    (92, "./data/antiref/seqdb/antiref94");
    (90, "./data/antiref/seqdb/antiref92") ]%nat.

(** ** Loading the assignment tables, cell [8a002d12] *)

(** A level's mapping from member to representative. *)
Abbreviation assignment := (PyDict.t string string).

(** The files the cell reads: a path gives the lines of the file, each as
    the file iterator yields it, or nothing when the file does not exist. *)
Definition filesystem : Type := string -> option (list string).

Definition tsv_path (threshold : nat) : string :=
  "./data/antiref/tsv/antiref" +:+ pretty threshold +:+ ".tsv".

(** [open(path)] *)
Definition open (fs : filesystem) (path : string) : result (list string) :=
  match fs path with
  | Some lines => Ok lines
  | None => Raise (FileNotFoundError path)
  end.

(** [l[i]] on a list. *)
Definition list_getitem {A} (l : list A) (i : nat) : result A :=
  match l !! i with
  | Some x => Ok x
  | None => Raise IndexError
  end.

(** The body of [for line in f]: a line without tokens is falsy and skipped;
    otherwise [d[l[1]] = l[0]], the right-hand side evaluated first. *)
Definition load_line (line : string) (d : assignment) : result assignment :=
  let l := tokens line in
  match l with
  | [] => Ok d
  | _ =>
      rep ← list_getitem l 0;
      member ← list_getitem l 1;
      Ok (PyDict.set member rep d)
  end.

Fixpoint load_lines (lines : list string) (d : assignment)
  : result assignment :=
  match lines with
  | [] => Ok d
  | line :: rest => d' ← load_line line d; load_lines rest d'
  end.

(** One level's table, from an empty dictionary. *)
Definition load_table (lines : list string) : result assignment :=
  load_lines lines PyDict.empty.

(** The loop over [thresholds], accumulating into [cluster_dicts]. *)
Fixpoint load_levels (fs : filesystem) (levels : list nat)
    (cluster_dicts : PyDict.t nat assignment)
  : result (PyDict.t nat assignment) :=
  match levels with
  | [] => Ok cluster_dicts
  | threshold :: rest =>
      lines ← open fs (tsv_path threshold);
      d ← load_table lines;
      load_levels fs rest (PyDict.set threshold d cluster_dicts)
  end.

Definition load_cluster_dicts (fs : filesystem)
  : result (PyDict.t nat assignment) :=
  load_levels fs thresholds PyDict.empty.

(** ** Writing the manifest, cell [06a080c0] *)

(** The line feed that ends every line written. *)
Definition nl : string := String (ascii_of_nat 10) EmptyString.

(** [','.join(fields) + '\n'] *)
Definition csv_line (fields : list string) : string :=
  String.concat "," fields +:+ nl.

(** The body of the row loop up to the list that is joined: six chained
    lookups, each into the dictionary of the next coarser level. *)
Definition manifest_row (cluster_dicts : PyDict.t nat assignment)
    (c100 : string) : result (list string) :=
  d99 ← PyDict.getitem KInt cluster_dicts 99;
  c99 ← PyDict.getitem KStr d99 c100;
  d98 ← PyDict.getitem KInt cluster_dicts 98;
  c98 ← PyDict.getitem KStr d98 c99;
  d96 ← PyDict.getitem KInt cluster_dicts 96;
  c96 ← PyDict.getitem KStr d96 c98;
  d94 ← PyDict.getitem KInt cluster_dicts 94;
  c94 ← PyDict.getitem KStr d94 c96;
  d92 ← PyDict.getitem KInt cluster_dicts 92;
  c92 ← PyDict.getitem KStr d92 c94;
  d90 ← PyDict.getitem KInt cluster_dicts 90;
  c90 ← PyDict.getitem KStr d90 c92;
  Ok [c100; c99; c98; c96; c94; c92; c90].

(** The file is the sequence of strings passed to [f.write], oldest first.
    A row is written only after all of its lookups returned; an exception
    leaves the file as it was before the row. *)
Fixpoint write_rows (cluster_dicts : PyDict.t nat assignment)
    (all_names : list string) (f : list string)
  : list string * result unit :=
  match all_names with
  | [] => (f, Ok tt)
  | c100 :: rest =>
      match manifest_row cluster_dicts c100 with
      | Ok row => write_rows cluster_dicts rest (f ++ [csv_line row])
      | Raise e => (f, Raise e)
      end
  end.

Definition header : list string :=
  map (fun c => "antiref" +:+ pretty c) thresholds.

(** The whole [with open(manifest_csv, 'w') as f:] block. *)
Definition write_manifest (cluster_dicts : PyDict.t nat assignment)
  : list string * result unit :=
  let f := [csv_line header] in
  match PyDict.getitem KInt cluster_dicts 99 with
  | Ok d99 => write_rows cluster_dicts (PyDict.keys d99) f
  | Raise e => (f, Raise e)
  end.

(** Chain resolution over any list of levels: thread the current value
    through each level's dictionary in turn and collect the values found.
    [manifest_row] is this routine unrolled over the six levels below 100. *)
Fixpoint resolve (cluster_dicts : PyDict.t nat assignment)
    (levels : list nat) (cur : string) : result (list string) :=
  match levels with
  | [] => Ok []
  | t :: rest =>
      d ← PyDict.getitem KInt cluster_dicts t;
      nxt ← PyDict.getitem KStr d cur;
      row ← resolve cluster_dicts rest nxt;
      Ok (nxt :: row)
  end.

(** ** Running the clustering tool, cells [90d21181] and [5ed69526] *)

(** [os.path.dirname] on POSIX paths: everything up to the last slash, with
    trailing slashes removed unless nothing else is left. *)
Definition slash : ascii := ascii_of_nat 47.

Fixpoint upto_last_slash (p : string) : string :=
  match p with
  | EmptyString => EmptyString
  | String c p' =>
      match upto_last_slash p' with
      | EmptyString =>
          if decide (c = slash) then String c EmptyString else EmptyString
      | h => String c h
      end
  end.

Fixpoint all_slashes (p : string) : bool :=
  match p with
  | EmptyString => true
  | String c p' => bool_decide (c = slash) && all_slashes p'
  end.

Fixpoint rstrip_slashes (p : string) : string :=
  match p with
  | EmptyString => EmptyString
  | String c p' =>
      match rstrip_slashes p' with
      | EmptyString =>
          if decide (c = slash) then EmptyString else String c EmptyString
      | r => String c r
      end
  end.

Definition dirname (p : string) : string :=
  let head := upto_last_slash p in
  if all_slashes head then head else rstrip_slashes head.

(** [f"{threshold/100:0.2f}"]: for an integer threshold the quotient printed
    with two decimals is the integer part, a point and the two last digits. *)
Definition format_2f (threshold : nat) : string :=
  let cents := (threshold mod 100)%nat in
  pretty (threshold / 100)%nat +:+ "." +:+
  (if (cents <? 10)%nat then "0" +:+ pretty cents else pretty cents).

Section Shell.
(** The machine the notebook runs on: its state, how a relative path is
    made absolute, the directory test, directory creation, and what running
    a shell command does: the captured standard output and error, the exit
    status, and the state it leaves. *)
Variable World : Type.
Variable abspath : string -> string.
Variable isdir : World -> string -> bool.
Variable make_dir : string -> World -> World.
Variable popen_communicate :
  string -> World -> (string * string * Z) * World.

(** The loop that creates the missing output directories. *)
Definition ensure_dirs (paths : list string) (w : World) : World :=
  fold_left
    (fun w path =>
       let d := dirname path in if isdir w d then w else make_dir d w)
    paths w.

(** The command line [linclust] assembles, one [&&]-chained string. *)
Definition linclust_cmd (threshold : nat) (parent_db temp_dir : string)
  : string :=
  let cluster_db := "./data/antiref/clusterdb/antiref" +:+ pretty threshold in
  let seq_db := "./data/antiref/seqdb/antiref" +:+ pretty threshold in
  let seq_tsv := tsv_path threshold in
  let cluster_sizes :=
    "./data/antiref/tsv/antiref" +:+ pretty threshold
      +:+ "_cluster-sizes.csv" in
  let seq_fasta :=
    "./data/antiref/fasta/antiref" +:+ pretty threshold +:+ ".fasta" in
  "mmseqs linclust " +:+ parent_db +:+ " " +:+ cluster_db +:+ " "
    +:+ temp_dir +:+ " "
    +:+ "--cov-mode 0 "
    +:+ "-c 1.0 "
    +:+ "--min-seq-id " +:+ format_2f threshold +:+ " "
    +:+ "&& mmseqs createsubdb " +:+ cluster_db +:+ " " +:+ parent_db
    +:+ " " +:+ seq_db +:+ " "
    +:+ "&& mmseqs convert2fasta " +:+ seq_db +:+ " " +:+ seq_fasta +:+ " "
    +:+ "&& mmseqs createtsv " +:+ parent_db +:+ " " +:+ parent_db +:+ " "
    +:+ cluster_db +:+ " " +:+ seq_tsv +:+ " "
    +:+ "&& cut -f 1 " +:+ seq_tsv +:+ " | sort | uniq -c > "
    +:+ cluster_sizes +:+ " ".

(** [linclust]: the value returned ([None] unless [debug]) and the state
    left behind.  The exit status that [communicate] leaves in
    [p.returncode] is never read.  What [print] shows is not part of the
    model. *)
Definition linclust (threshold : nat) (parent_db temp_dir : string)
    (debug : bool) (w : World) : option (string * string) * World :=
  let temp_dir := abspath temp_dir in
  let parent_db := abspath parent_db in
  let cluster_db := "./data/antiref/clusterdb/antiref" +:+ pretty threshold in
  let seq_db := "./data/antiref/seqdb/antiref" +:+ pretty threshold in
  let seq_tsv := tsv_path threshold in
  let seq_fasta :=
    "./data/antiref/fasta/antiref" +:+ pretty threshold +:+ ".fasta" in
  let w := ensure_dirs [cluster_db; seq_db; seq_tsv; seq_fasta] w in
  let cmd := linclust_cmd threshold parent_db temp_dir in
  let '(stdout, stderr, _, w) := popen_communicate cmd w in
  (if debug then Some (stdout, stderr) else None, w).

(** The loop of cell [5ed69526] over a list of levels. *)
Fixpoint run_levels (levels : list nat) (w : World) : result unit * World :=
  match levels with
  | [] => (Ok tt, w)
  | threshold :: rest =>
      match PyDict.getitem KInt parent_lookup threshold with
      | Ok parent_db =>
          let '(_, w') := linclust threshold parent_db "/tmp" false w in
          run_levels rest w'
      | Raise e => (Raise e, w)
      end
  end.

Definition pipeline (w : World) : result unit * World :=
  run_levels thresholds w.
End Shell.

(** ** The size summary: [cut -f 1 | sort | uniq -c], then [wc -l] *)

Definition tab : ascii := ascii_of_nat 9.
Definition lf : ascii := ascii_of_nat 10.

(** One line of the table [createtsv] writes: representative, TAB, member. *)
Definition tsv_line (rec : string * string) : string :=
  rec.1 +:+ String tab EmptyString +:+ rec.2 +:+ nl.

(** [cut -f 1] on one line: the text before the first TAB (the whole line
    when it has none), without its line feed. *)
Fixpoint cut_f1 (line : string) : string :=
  match line with
  | EmptyString => EmptyString
  | String c rest =>
      if decide (c = tab) then EmptyString
      else if decide (c = lf) then EmptyString
      else String c (cut_f1 rest)
  end.

Module StringOrder <: Orders.TotalLeBool'.
Definition t := string.
Definition leb := String.leb.
Definition leb_total := String.leb_total.
End StringOrder.

(** [sort], in byte order. *)
Module StringSort := Mergesort.Sort StringOrder.

(** [uniq -c]: each run of equal adjacent lines becomes one line that
    carries the length of the run. *)
Fixpoint uniq_c (l : list string) : list (nat * string) :=
  match l with
  | [] => []
  | x :: l' =>
      match uniq_c l' with
      | (n, y) :: r =>
          if decide (x = y) then (S n, y) :: r else (1%nat, x) :: (n, y) :: r
      | [] => [(1%nat, x)]
      end
  end.

(** The content of [antiref{threshold}_cluster-sizes.csv] for a table. *)
Definition cluster_sizes (table : list string) : list (nat * string) :=
  uniq_c (StringSort.sort (map cut_f1 table)).

(** [wc -l] of the size summary: the level's cluster count. *)
Definition cluster_count (table : list string) : nat :=
  length (cluster_sizes table).

(** ** Clustering efficiency, cell [80d44763] *)

Record eff_record : Type := {
  clustering_identity : nat;
  clusters : Z;
  efficiency : Q
}.

(** [count / antiref100_count].  Python's quotient of two integers is the
    float nearest to the exact quotient; the model keeps the exact quotient,
    which rounding leaves on the same side of 0 and of 1. *)
Definition truediv (count : Z) (antiref100_count : option Z) : result Q :=
  match antiref100_count with
  | None => Raise TypeError
  | Some b =>
      if decide (b = 0%Z) then Raise ZeroDivisionError
      else Ok (inject_Z count / inject_Z b)%Q
  end.

Section Efficiency.
Variable abspath : string -> string.
(** [int(stdout.decode('utf-8').split()[0])] for the command [wc -l path]:
    the integer read, or the exception the parse raises. *)
Variable wc_l : string -> result Z.

Definition size_path (threshold : nat) : string :=
  abspath ("./data/antiref/tsv/antiref" +:+ pretty threshold
             +:+ "_cluster-sizes.csv").

Fixpoint eff_loop (levels : list nat) (antiref100_count : option Z)
    (eff_data : list eff_record) : result (list eff_record) :=
  match levels with
  | [] => Ok eff_data
  | threshold :: rest =>
      count ← wc_l (size_path threshold);
      let antiref100_count :=
        if decide (threshold = 100%nat) then Some count
        else antiref100_count in
      ratio ← truediv count antiref100_count;
      eff_loop rest antiref100_count
        (eff_data ++ [ {| clustering_identity := threshold;
                          clusters := count;
                          efficiency := ratio |} ])
  end.

Definition efficiencies : result (list eff_record) :=
  eff_loop thresholds None [].
End Efficiency.

(** ** The mock data of the notebook's manifest walk-through

    Five sequences; [id_01] and [id_02] merge at 99 under [id_01]; nothing
    else merges until 90, where the cluster of [id_01] joins [id_03]. *)
Definition mock_tables (t : nat) : list (string * string) :=
  if decide (t = 100%nat) then
    map (fun x => (x, x)) ["id_01"; "id_02"; "id_03"; "id_04"; "id_05"]
  else if decide (t = 99%nat) then
    [("id_01", "id_01"); ("id_01", "id_02"); ("id_03", "id_03");
     ("id_04", "id_04"); ("id_05", "id_05")]
  else if decide (t = 90%nat) then
    [("id_03", "id_01"); ("id_03", "id_03");
     ("id_04", "id_04"); ("id_05", "id_05")]
  else map (fun x => (x, x)) ["id_01"; "id_03"; "id_04"; "id_05"].

(** The files of the mock run: one table per threshold, nothing else. *)
Definition mock_fs : filesystem := fun path =>
  match list_find (fun t => path = tsv_path t) thresholds with
  | Some (_, t) => Some (map tsv_line (mock_tables t))
  | None => None
  end.

(** ** Vocabulary of the statements *)

(** A line made of whitespace only (the empty line included). *)
Fixpoint blank (s : string) : bool :=
  match s with
  | EmptyString => true
  | String c s' => is_space c && blank s'
  end.

(** The member a line contributes, if it has two tokens. *)
Definition line_member (line : string) : option string := tokens line !! 1%nat.

(** The members of a table, line by line. *)
Definition members (lines : list string) : list string :=
  omap line_member lines.

(** Lines the loader accepts: anything but a single token. *)
Definition loadable (line : string) : Prop := length (tokens line) ≠ 1%nat.

(** The levels the manifest resolves through: all but the first. *)
Definition coarser_levels : list nat := tail thresholds.

(** The chain of [c100] breaks at level [t] on the value [k]: the levels
    before [t] resolve, [k] is the value the chain has reached, and the
    dictionary of [t] has no entry for it. *)
Definition chain_breaks (cluster_dicts : PyDict.t nat assignment)
    (c100 : string) (t : nat) (k : string) : Prop :=
  exists pre rest chain d,
    coarser_levels = pre ++ t :: rest /\
    resolve cluster_dicts pre c100 = Ok chain /\
    last (c100 :: chain) = Some k /\
    PyDict.find t cluster_dicts = Some d /\
    PyDict.find k d = None.

(** [row] is the lineage of [c100]: one entry per threshold, the first being
    [c100] itself, and the entry of every level below 100 being what that
    level's dictionary stores for the entry before it. *)
Definition lineage_of (cluster_dicts : PyDict.t nat assignment)
    (c100 : string) (row : list string) : Prop :=
  length row = length thresholds /\
  row !! 0%nat = Some c100 /\
  forall i t, coarser_levels !! i = Some t ->
    exists d prev v,
      PyDict.find t cluster_dicts = Some d /\
      row !! i = Some prev /\
      row !! S i = Some v /\
      PyDict.find prev d = Some v.

(** Along a list of levels, every representative of a level is a member of
    the next one: the parent and child relation between the datasets. *)
Fixpoint chain_closed_on (cluster_dicts : PyDict.t nat assignment)
    (levels : list nat) : Prop :=
  match levels with
  | a :: (b :: _) as rest =>
      (forall da, PyDict.find a cluster_dicts = Some da ->
         exists db, PyDict.find b cluster_dicts = Some db /\
                    forall v, v ∈ PyDict.values da -> v ∈ PyDict.keys db) /\
      chain_closed_on cluster_dicts rest
  | _ => True
  end.

(** The same condition as a check that computes. *)
Fixpoint chain_closedb (cluster_dicts : PyDict.t nat assignment)
    (levels : list nat) : bool :=
  match levels with
  | a :: (b :: _) as rest =>
      match PyDict.find a cluster_dicts with
      | Some da =>
          match PyDict.find b cluster_dicts with
          | Some db =>
              forallb (fun v => bool_decide (v ∈ PyDict.keys db))
                (PyDict.values da)
          | None => false
          end
      | None => true
      end && chain_closedb cluster_dicts rest
  | _ => true
  end.

Definition chain_closed (cluster_dicts : PyDict.t nat assignment) : Prop :=
  chain_closed_on cluster_dicts coarser_levels.

(** The dictionaries the loader builds from the mock tables. *)
Definition mock_cluster_dicts : PyDict.t nat assignment :=
  Eval vm_compute in
    match load_cluster_dicts mock_fs with
    | Ok cluster_dicts => cluster_dicts
    | Raise _ => PyDict.empty
    end.

(** The mock tables with the line of [id_03] missing from the table of 98:
    the chain of [id_03] cannot be resolved past 99. *)
Definition broken_fs : filesystem := fun path =>
  if decide (path = tsv_path 98) then
    Some (map (fun x => tsv_line (x, x)) ["id_01"; "id_04"; "id_05"])
  else mock_fs path.

(** ** Tables as records, for the cluster counts *)

(** An identifier that [cut] reads back whole: no TAB and no line feed. *)
Fixpoint field_ok (s : string) : bool :=
  match s with
  | EmptyString => true
  | String c s' =>
      negb (bool_decide (c = tab)) && negb (bool_decide (c = lf))
      && field_ok s'
  end.

(** The table of every level, as the records [createtsv] writes:
    (representative, member). *)
Definition tables : Type := nat -> list (string * string).

Definition tables_ok (tsv : tables) : Prop :=
  forall t r m, t ∈ thresholds -> (r, m) ∈ tsv t -> field_ok r = true.

(** The count the efficiency cell reads for a level. *)
Definition level_count (tsv : tables) (t : nat) : nat :=
  cluster_count (map tsv_line (tsv t)).

(** Each level's member set is the representative set of the level before
    it in [thresholds]. *)
Definition parent_invariant (tsv : tables) : Prop :=
  forall i a b,
    thresholds !! i = Some a -> thresholds !! S i = Some b ->
    forall x, x ∈ map snd (tsv b) <-> x ∈ map fst (tsv a).

(** No member is listed with two different representatives. *)
Definition one_rep_per_member (recs : list (string * string)) : Prop :=
  forall r1 r2 m, (r1, m) ∈ recs -> (r2, m) ∈ recs -> r1 = r2.

(** The counts never grow along [thresholds]. *)
Definition counts_non_increasing (tsv : tables) : Prop :=
  forall i a b,
    thresholds !! i = Some a -> thresholds !! S i = Some b ->
    level_count tsv b <= level_count tsv a.

(** Tables that keep the parent invariant and still list the member [a]
    under two representatives at level 99. *)
Definition split_tables : tables := fun t =>
  if decide (t = 100%nat) then [("a", "a")]
  else if decide (t = 99%nat) then [("a", "a"); ("b", "a")]
  else [("a", "a"); ("b", "b")].

(** ** Two machines for the pipeline

    The state is the list of the commands run so far; directories always
    exist; every command prints nothing and exits with the given status. *)
Definition work_abspath (p : string) : string :=
  match p with
  | String "/" _ => p
  | String "." (String "/" rest) => "/work/" +:+ rest
  | _ => "/work/" +:+ p
  end.

Definition popen_with (status : Z) (cmd : string) (w : list string)
  : (string * string * Z) * list string :=
  (("", "", status), w ++ [cmd]).

Definition run_with (status : Z) : result unit * list string :=
  pipeline (list string) work_abspath (fun _ _ => true) (fun _ w => w)
    (popen_with status) [].

(** ** Counts for the efficiency cell: 2 clusters at 100, 3 below *)
Definition skewed_wc (path : string) : result Z :=
  if decide (path = size_path work_abspath 100) then Ok 2%Z else Ok 3%Z.

Definition steady_wc (path : string) : result Z := Ok 4%Z.

(** ** Building the initial database, cells [b501988f] and [447c0503] *)

Section MakeDb.
(** The machine, as for [linclust].  The directory creation this cell
    names is [abutils.io.makedir]; the library has [make_dir], which the
    other cells call, and no [makedir], so reaching the call raises
    [AttributeError]. *)
Variable World : Type.
Variable abspath : string -> string.
Variable isdir : World -> string -> bool.
Variable popen_communicate :
  string -> World -> (string * string * Z) * World.

Definition createdb_cmd (fasta_path db_path : string) : string :=
  "mmseqs createdb " +:+ fasta_path +:+ " " +:+ db_path.

(** [make_mmseqs_db]: the value returned, or the exception, and the state
    left behind. *)
Definition make_mmseqs_db (fasta_path db_path : string) (debug : bool)
    (w : World) : result (option (string * string)) * World :=
  let fasta_path := abspath fasta_path in
  let db_path := abspath db_path in
  if isdir w (dirname db_path) then
    let createdb := createdb_cmd fasta_path db_path in
    let '(stdout, stderr, _, w) := popen_communicate createdb w in
    (Ok (if debug then Some (stdout, stderr) else None), w)
  else (Raise AttributeError, w).
End MakeDb.

Definition init_fasta : string := "./data/filtered/fasta/all.fasta".
Definition init_db : string := "./data/antiref/seqdb/init".

(** ** Downloading the data, [download.ipynb], cell [fe875dd9] *)

(** [s[n:]] *)
Fixpoint string_drop (n : nat) (s : string) : string :=
  match n, s with
  | O, _ => s
  | S n', String _ s' => string_drop n' s'
  | S _, EmptyString => EmptyString
  end.

(** [os.path.basename]: what follows the last slash. *)
Definition basename (p : string) : string :=
  string_drop (String.length (upto_last_slash p)) p.

Fixpoint ends_with_slash (p : string) : bool :=
  match p with
  | EmptyString => false
  | String c EmptyString => bool_decide (c = slash)
  | String _ p' => ends_with_slash p'
  end.

(** [os.path.join(a, b)] *)
Definition path_join (a b : string) : string :=
  match b with
  | String c _ =>
      if decide (c = slash) then b
      else match a with
           | EmptyString => b
           | _ => if ends_with_slash a then a +:+ b else a +:+ "/" +:+ b
           end
  | EmptyString =>
      match a with
      | EmptyString => b
      | _ => if ends_with_slash a then a else a +:+ "/"
      end
  end.

(** [s.rstrip(chars)]: trailing characters are removed as long as they
    belong to [chars]. *)
Fixpoint rstrip_chars (chars : list ascii) (s : string) : string :=
  match s with
  | EmptyString => EmptyString
  | String c s' =>
      match rstrip_chars chars s' with
      | EmptyString =>
          if bool_decide (c ∈ chars) then EmptyString else String c EmptyString
      | r => String c r
      end
  end.

(** The argument of [rstrip('.gz')], as a set of characters. *)
Definition gz_chars : list ascii := list_ascii_of_string ".gz".

Section Download.
Variable World : Type.
Variable abspath : string -> string.
Variable isdir : World -> string -> bool.
Variable make_dir : string -> World -> World.
Variable popen_communicate :
  string -> World -> (string * string * Z) * World.

Definition wget_cmd (compressed_file url : string) : string :=
  "wget -O " +:+ compressed_file +:+ " " +:+ url.

Definition gunzip_cmd (compressed_file decompressed_file : string) : string :=
  "gunzip -kc " +:+ compressed_file +:+ " > " +:+ decompressed_file.

(** The download loop.  [_, url = sline.split()] needs exactly two tokens
    and raises [ValueError] otherwise; [decompressed_dir] is a string
    whenever [decompress] holds, and joining [None] would be a
    [TypeError]. *)
Fixpoint download_lines (raw_download_dir : string)
    (decompressed_dir : option string) (decompress : bool)
    (lines : list string) (w : World) : result unit * World :=
  match lines with
  | [] => (Ok tt, w)
  | line :: rest =>
      match strip line with
      | EmptyString =>
          download_lines raw_download_dir decompressed_dir decompress rest w
      | sline =>
          match split sline with
          | [_; url] =>
              let compressed_fname := basename url in
              let compressed_file :=
                path_join raw_download_dir compressed_fname in
              let '(_, w) :=
                popen_communicate (wget_cmd compressed_file url) w in
              if decompress then
                let decompressed_fname :=
                  rstrip_chars gz_chars compressed_fname in
                match decompressed_dir with
                | Some dir =>
                    let decompressed_file :=
                      path_join dir decompressed_fname in
                    let '(_, w) :=
                      popen_communicate
                        (gunzip_cmd compressed_file decompressed_file) w in
                    download_lines raw_download_dir decompressed_dir
                      decompress rest w
                | None => (Raise TypeError, w)
                end
              else
                download_lines raw_download_dir decompressed_dir decompress
                  rest w
          | _ => (Raise ValueError, w)
          end
      end
  end.

(** The directory setup at the head of [oas_downloader]: the absolute
    download directory, the decompression directory if any, and the state
    with the missing ones created. *)
Definition setup_dirs (raw_download_dir : string)
    (decompressed_dir : option string) (decompress : bool) (w : World)
  : string * option string * World :=
  let raw_download_dir := abspath raw_download_dir in
  let w :=
    if isdir w raw_download_dir then w else make_dir raw_download_dir w in
  if decompress then
    let dir :=
      match decompressed_dir with
      | None => path_join raw_download_dir "decompressed"
      | Some dir => dir
      end in
    let dir := abspath dir in
    (raw_download_dir, Some dir, if isdir w dir then w else make_dir dir w)
  else (raw_download_dir, decompressed_dir, w).

(** The stripped non-empty lines the list comprehension keeps. *)
Definition script_lines (file_lines : list string) : list string :=
  filter (fun l => l ≠ EmptyString) (map strip file_lines).

Definition oas_downloader (fs : filesystem) (oas_sh_file : string)
    (raw_download_dir : string) (decompressed_dir : option string)
    (decompress : bool) (w : World) : result unit * World :=
  let '(raw_download_dir, decompressed_dir, w) :=
    setup_dirs raw_download_dir decompressed_dir decompress w in
  match open fs oas_sh_file with
  | Ok file_lines =>
      download_lines raw_download_dir decompressed_dir decompress
        (script_lines file_lines) w
  | Raise e => (Raise e, w)
  end.
End Download.

(** ** Vocabulary of the further statements *)

(** Running a list of shell commands one after the other. *)
Definition run_commands {World : Type}
    (popen : string -> World -> (string * string * Z) * World)
    (cmds : list string) (w : World) : World :=
  fold_left (fun w cmd => (popen cmd w).2) cmds w.

(** A machine that records the commands it runs: the state is the log;
    the output and status of a command are whatever [out] says. *)
Definition logging_popen (out : string -> list string -> string * string * Z)
    (cmd : string) (log : list string)
  : (string * string * Z) * list string :=
  (out cmd log, log ++ [cmd]).

(** The commands one line of a download script stands for. *)
Definition line_commands (raw_download_dir : string)
    (decompressed_dir : option string) (decompress : bool) (line : string)
  : list string :=
  match split line with
  | [_; url] =>
      let compressed_file := path_join raw_download_dir (basename url) in
      wget_cmd compressed_file url ::
      match decompress, decompressed_dir with
      | true, Some dir =>
          [gunzip_cmd compressed_file
             (path_join dir (rstrip_chars gz_chars (basename url)))]
      | _, _ => []
      end
  | _ => []
  end.

(** A string without whitespace. *)
Fixpoint no_space (s : string) : bool :=
  match s with
  | EmptyString => true
  | String c s' => negb (is_space c) && no_space s'
  end.

(** An identifier as a table holds it: not empty, no whitespace. *)
Definition word (s : string) : Prop := s ≠ EmptyString /\ no_space s = true.

(** The distinct elements of a list, each at its first occurrence. *)
Definition dedup_first (l : list string) : list string :=
  fold_left (fun acc x => if decide (x ∈ acc) then acc else acc ++ [x]) l [].

(** The files a family of tables stands for. *)
Definition tables_fs (tsv : tables) : filesystem := fun path =>
  match list_find (fun t => path = tsv_path t) thresholds with
  | Some (_, t) => Some (map tsv_line (tsv t))
  | None => None
  end.

(** Every record of every level is a pair of identifiers. *)
Definition tables_words (tsv : tables) : Prop :=
  forall t r m, t ∈ thresholds -> (r, m) ∈ tsv t -> word r /\ word m.

(** A download script of three lines, the second one blank. *)
Definition mock_script : list string :=
  [ "wget http://host/oas/ERR1_Heavy_IGHG.csv.gz" +:+ nl;
    nl;
    "wget http://host/oas/ERR2_Light_Bulk.csv.gz" +:+ nl ].

(** The last character of a string, if it has one. *)
Fixpoint last_char (s : string) : option ascii :=
  match s with
  | EmptyString => None
  | String c EmptyString => Some c
  | String _ s' => last_char s'
  end.

(** The files of the mock download: the script under [download_heavy.txt]. *)
Definition script_fs : filesystem := fun path =>
  if decide (path = "./download_heavy.txt") then Some mock_script else None.


(** * Properties *)

(** ** Dictionaries *)

Module PyDictFacts.
Import PyDict.
Section Facts.
Context {K V : Type} `{EqDecision K}.
Implicit Types (d : PyDict.t K V) (k : K) (v : V).

Lemma find_set_eq k v d : find k (set k v d) = Some v.
Proof.
  induction d as [|[k' v'] d IH]; simpl.
  - by rewrite decide_True.
  - destruct (decide (k = k')) as [->|Hne]; simpl.
    + by rewrite decide_True.
    + by rewrite decide_False.
Qed.

Lemma find_set_ne k k' v d : k ≠ k' -> find k' (set k v d) = find k' d.
Proof.
  intros Hne. induction d as [|[k0 v0] d IH]; simpl.
  - rewrite decide_False; [done | congruence].
  - destruct (decide (k = k0)) as [->|Hne0]; simpl.
    + rewrite !decide_False; [done | congruence | congruence].
    + destruct (decide (k' = k0)); [done | apply IH].
Qed.

Lemma find_set k k' v d :
  find k' (set k v d) = if decide (k = k') then Some v else find k' d.
Proof.
  destruct (decide (k = k')) as [->|Hne];
    [apply find_set_eq | by apply find_set_ne].
Qed.

Lemma find_Some_elem_of k v d : find k d = Some v -> (k, v) ∈ d.
Proof.
  induction d as [|[k' v'] d IH]; simpl; [done|].
  destruct (decide (k = k')) as [->|Hne].
  - intros [= ->]. left.
  - intros Hf. right. by apply IH.
Qed.

Lemma find_is_Some k d : is_Some (find k d) <-> k ∈ keys d.
Proof.
  induction d as [|[k' v'] d IH]; simpl.
  - split; [by intros [? ?] | by intros ?%elem_of_nil].
  - destruct (decide (k = k')) as [->|Hne].
    + split; [intros _; left | by eauto].
    + rewrite IH. unfold keys. simpl. rewrite elem_of_cons.
      split; [by right | by intros [?|?]].
Qed.

Lemma find_None k d : find k d = None <-> k ∉ keys d.
Proof. rewrite <- find_is_Some, eq_None_not_Some. done. Qed.

(** Assignment to a present key keeps the key where it is; a new key goes
    to the end. *)
Lemma keys_set k v d :
  keys (set k v d) = if decide (k ∈ keys d) then keys d else keys d ++ [k].
Proof.
  unfold keys. induction d as [|[k' v'] d IH]; simpl.
  - done.
  - destruct (decide (k = k')) as [->|Hne]; simpl.
    + rewrite decide_True by left. done.
    + rewrite IH. destruct (decide (k ∈ map fst d)) as [Hin|Hnin].
      * rewrite decide_True by (by right). done.
      * rewrite decide_False; [done|]. rewrite elem_of_cons. by intros [?|?].
Qed.

Lemma keys_set_NoDup k v d : NoDup (keys d) -> NoDup (keys (set k v d)).
Proof.
  intros Hnd. rewrite keys_set. case_decide; [done|].
  apply NoDup_app. split_and!; [done | | apply NoDup_singleton].
  intros x Hx ->%list_elem_of_singleton. done.
Qed.
End Facts.
End PyDictFacts.


(** ** Tokens and blank lines *)

Lemma rstrip_empty_iff s : rstrip s = EmptyString <-> blank s = true.
Proof.
  induction s as [|c s IH]; simpl; [done|].
  destruct (rstrip s) eqn:Hr.
  - destruct (is_space c); simpl; [tauto | split; done].
  - split; [done|]. intros [_ Hb]%andb_true_iff.
    by apply IH in Hb.
Qed.

Lemma blank_lstrip s : blank (lstrip s) = true -> blank s = true.
Proof.
  induction s as [|c s IH]; simpl; [done|].
  destruct (is_space c) eqn:Hc; simpl; [done|].
  by rewrite Hc.
Qed.

Lemma blank_rstrip s : blank (rstrip s) = true -> blank s = true.
Proof.
  induction s as [|c s IH]; simpl; [done|].
  destruct (rstrip s) eqn:Hr.
  - apply rstrip_empty_iff in Hr. rewrite Hr.
    destruct (is_space c) eqn:Hc; simpl; [done|]. by rewrite Hc.
  - simpl. intros [-> Hb]%andb_true_iff. simpl. by apply IH.
Qed.

Lemma split_scan_nil s : split_scan s = (EmptyString, []) -> blank s = true.
Proof.
  induction s as [|c s IH]; simpl; [done|].
  destruct (split_scan s) as [tok toks].
  destruct (is_space c); simpl; [|done].
  intros [= Hp]. apply IH.
  destruct tok; simpl in Hp; [by subst | done].
Qed.

Lemma split_nil s : split s = [] -> blank s = true.
Proof.
  unfold split. destruct (split_scan s) as [tok toks] eqn:Hs.
  intros Hp. apply split_scan_nil.
  destruct tok; simpl in Hp; [by subst | done].
Qed.

(** A line has no token exactly when it is blank. *)
Lemma tokens_nil_iff line : tokens line = [] <-> blank line = true.
Proof.
  unfold tokens, strip. split.
  - intros Hs%split_nil. by apply blank_rstrip, blank_lstrip.
  - intros Hb%rstrip_empty_iff. by rewrite Hb.
Qed.

(** ** The loader *)

Lemma load_line_cases line d :
  load_line line d =
  match tokens line with
  | [] => Ok d
  | [_] => Raise IndexError
  | rep :: member :: _ => Ok (PyDict.set member rep d)
  end.
Proof.
  unfold load_line. destruct (tokens line) as [|rep [|member extra]]; done.
Qed.

Lemma load_lines_app l1 l2 d :
  load_lines (l1 ++ l2) d = d' ← load_lines l1 d; load_lines l2 d'.
Proof.
  revert d. induction l1 as [|ln l1 IH]; intros d; simpl; [done|].
  destruct (load_line ln d) as [d1|e]; simpl; [apply IH | done].
Qed.

Lemma load_lines_ok lines d :
  Forall loadable lines -> exists d', load_lines lines d = Ok d'.
Proof.
  intros Hall. revert d. induction Hall as [|ln lines Hln _ IH]; intros d.
  - by exists d.
  - simpl. rewrite load_line_cases. unfold loadable in Hln.
    destruct (tokens ln) as [|rep [|member extra]]; simpl in *;
      [apply IH | done | apply IH].
Qed.

Lemma load_lines_raise lines d e :
  load_lines lines d = Raise e ->
  e = IndexError /\ Exists (fun ln => length (tokens ln) = 1%nat) lines.
Proof.
  revert d. induction lines as [|ln lines IH]; intros d; simpl; [done|].
  rewrite load_line_cases.
  destruct (tokens ln) as [|rep [|member extra]] eqn:Ht; simpl.
  - intros [-> Hex]%IH. split; [done | by right].
  - intros [= <-]. split; [done|]. left. by rewrite Ht.
  - intros [-> Hex]%IH. split; [done | by right].
Qed.

Lemma load_lines_other lines d d' m :
  Forall (fun ln => line_member ln ≠ Some m) lines ->
  load_lines lines d = Ok d' -> PyDict.find m d' = PyDict.find m d.
Proof.
  intros Hall. revert d.
  induction Hall as [|ln lines Hln _ IH]; intros d; simpl.
  - by intros [= ->].
  - rewrite load_line_cases. unfold line_member in Hln.
    destruct (tokens ln) as [|rep [|member extra]]; simpl in *;
      [apply IH | done |].
    intros Hl%IH. rewrite Hl. apply PyDictFacts.find_set_ne. congruence.
Qed.

Lemma load_lines_entry lines d d' k v :
  load_lines lines d = Ok d' -> PyDict.find k d' = Some v ->
  PyDict.find k d = Some v \/
  exists ln extra, ln ∈ lines /\ tokens ln = v :: k :: extra.
Proof.
  revert d. induction lines as [|ln lines IH]; intros d; simpl.
  - intros [= ->]. by left.
  - rewrite load_line_cases.
    destruct (tokens ln) as [|rep [|member extra]] eqn:Ht; simpl; [| done |].
    + intros Hl Hf. destruct (IH _ Hl Hf) as [?|(ln' & ex & Hin & Htok)];
        [by left | right]. exists ln', ex. split; [by right | done].
    + intros Hl Hf. destruct (IH _ Hl Hf) as [Hs|(ln' & ex & Hin & Htok)].
      * rewrite PyDictFacts.find_set in Hs. case_decide as Hk; [|by left].
        subst. injection Hs as ->. right. exists ln, extra.
        split; [left | done].
      * right. exists ln', ex. split; [by right | done].
Qed.

Lemma load_lines_key lines d d' ln :
  load_lines lines d = Ok d' -> ln ∈ lines ->
  forall m, line_member ln = Some m -> is_Some (PyDict.find m d').
Proof.
  intros Hl Hin m Hm. apply list_elem_of_split in Hin as (l1 & l2 & ->).
  rewrite load_lines_app in Hl.
  destruct (load_lines l1 d) as [d1|e] eqn:H1; simpl in Hl; [|done].
  rewrite load_line_cases in Hl. unfold line_member in Hm.
  destruct (tokens ln) as [|rep [|member extra]]; simpl in *; try done.
  injection Hm as ->.
  assert (Hk : forall l (a a' : assignment),
             load_lines l a = Ok a' -> is_Some (PyDict.find m a) ->
             is_Some (PyDict.find m a')).
  { clear. induction l as [|x l IH]; intros a a'; simpl.
    - by intros [= ->].
    - rewrite load_line_cases.
      destruct (tokens x) as [|r [|k ex]]; simpl; [apply IH | done |].
      intros Hl Hs. apply (IH _ _ Hl). rewrite PyDictFacts.find_set.
      case_decide; [by eexists | done]. }
  apply (Hk _ _ _ Hl). rewrite PyDictFacts.find_set_eq. by eexists.
Qed.

Lemma load_lines_NoDup lines d d' :
  NoDup (PyDict.keys d) -> load_lines lines d = Ok d' -> NoDup (PyDict.keys d').
Proof.
  revert d. induction lines as [|ln lines IH]; intros d Hnd; simpl.
  - by intros [= <-].
  - rewrite load_line_cases.
    destruct (tokens ln) as [|rep [|member extra]]; simpl;
      [by apply IH | done |].
    apply IH. by apply PyDictFacts.keys_set_NoDup.
Qed.


Lemma load_lines_ok_inv lines d d' :
  load_lines lines d = Ok d' -> Forall loadable lines.
Proof.
  revert d. induction lines as [|ln lines IH]; intros d; simpl; [done|].
  rewrite load_line_cases. unfold loadable.
  destruct (tokens ln) as [|rep [|member extra]] eqn:Ht; simpl; [| done |].
  - intros Hl. constructor; [by rewrite Ht | by eapply IH].
  - intros Hl. constructor; [by rewrite Ht | by eapply IH].
Qed.

Lemma loadable_iff ln :
  loadable ln <-> (blank ln = false -> 2 <= length (tokens ln)).
Proof.
  unfold loadable. split.
  - intros Hne Hb. destruct (tokens ln) as [|a [|b l]] eqn:Ht; simpl in *;
      [| done | lia].
    apply tokens_nil_iff in Ht. congruence.
  - intros Himp. destruct (blank ln) eqn:Hb.
    + apply tokens_nil_iff in Hb. by rewrite Hb.
    + specialize (Himp eq_refl). lia.
Qed.

(** The value stored for a member is the representative of the last line
    that names it. *)
Lemma load_lines_last l1 ln l2 d d' rep member extra :
  tokens ln = rep :: member :: extra ->
  Forall (fun ln' => line_member ln' ≠ Some member) l2 ->
  load_lines (l1 ++ ln :: l2) d = Ok d' ->
  PyDict.find member d' = Some rep.
Proof.
  intros Ht Hl2. rewrite load_lines_app.
  destruct (load_lines l1 d) as [d1|e]; simpl; [|done].
  rewrite load_line_cases, Ht. simpl. intros Hl.
  rewrite (load_lines_other _ _ _ _ Hl2 Hl).
  apply PyDictFacts.find_set_eq.
Qed.

(** ** Claims on the assignment index *)

(** C10.  Loading an assignment table skips every blank line without
    creating an entry, uses only the first two tokens of a line, fails with
    [IndexError] as soon as some line has exactly one token, and succeeds
    exactly when every non-blank line has at least two tokens. *)
Theorem load_table_malformed_lines :
  (forall l1 ln l2 d, blank ln = true ->
     load_lines (l1 ++ ln :: l2) d = load_lines (l1 ++ l2) d) /\
  (forall ln rep member extra d, tokens ln = rep :: member :: extra ->
     load_line ln d = Ok (PyDict.set member rep d)) /\
  (forall lines ln tok, ln ∈ lines -> tokens ln = [tok] ->
     load_table lines = Raise IndexError) /\
  (forall lines, (exists d, load_table lines = Ok d) <->
     Forall (fun ln => blank ln = false -> 2 <= length (tokens ln)) lines).
Proof.
  split_and!.
  - intros l1 ln l2 d Hb%tokens_nil_iff.
    rewrite !load_lines_app. destruct (load_lines l1 d) as [d1|e]; [|done].
    simpl. by rewrite load_line_cases, Hb.
  - intros ln rep member extra d Ht. by rewrite load_line_cases, Ht.
  - intros lines ln tok Hin Ht. unfold load_table.
    destruct (load_lines lines PyDict.empty) as [d|e] eqn:Hl.
    + apply load_lines_ok_inv in Hl. rewrite Forall_forall in Hl.
      specialize (Hl ln Hin). unfold loadable in Hl. by rewrite Ht in Hl.
    + by apply load_lines_raise in Hl as [-> _].
  - intros lines. unfold load_table. split.
    + intros [d Hl%load_lines_ok_inv].
      eapply Forall_impl; [exact Hl|]. intros ln. apply loadable_iff.
    + intros Hall. apply load_lines_ok.
      eapply Forall_impl; [exact Hall|]. intros ln. apply loadable_iff.
Qed.

(** C8.  Every entry of a loaded table comes from a line whose first token
    is the value (the representative) and whose second token is the key (the
    member); every line's second token is a key; and a line's member is
    mapped to that line's first token unless a later line names the same
    member. *)
Theorem assignment_orientation lines d :
  load_table lines = Ok d ->
  (forall member rep, PyDict.find member d = Some rep ->
     exists ln extra, ln ∈ lines /\ tokens ln = rep :: member :: extra) /\
  (forall ln rep member extra,
     ln ∈ lines -> tokens ln = rep :: member :: extra ->
     member ∈ PyDict.keys d) /\
  (forall l1 ln l2 rep member extra,
     lines = l1 ++ ln :: l2 ->
     tokens ln = rep :: member :: extra ->
     Forall (fun ln' => line_member ln' ≠ Some member) l2 ->
     PyDict.find member d = Some rep).
Proof.
  unfold load_table. intros Hl. split_and!.
  - intros member rep Hf.
    by destruct (load_lines_entry _ _ _ _ _ Hl Hf) as [?|?].
  - intros ln rep member extra Hin Ht. apply PyDictFacts.find_is_Some.
    eapply load_lines_key; [exact Hl | exact Hin |].
    unfold line_member. by rewrite Ht.
  - intros l1 ln l2 rep member extra -> Ht Hl2.
    by eapply load_lines_last.
Qed.

Lemma assignment_orientation_witness :
  let lines := map tsv_line [("id_01", "id_01"); ("id_01", "id_02")] in
  let d := [("id_01", "id_01"); ("id_02", "id_01")] in
  load_table lines = Ok d /\
  ((forall member rep, PyDict.find member d = Some rep ->
      exists ln extra, ln ∈ lines /\ tokens ln = rep :: member :: extra) /\
   (forall ln rep member extra,
      ln ∈ lines -> tokens ln = rep :: member :: extra ->
      member ∈ PyDict.keys d) /\
   (forall l1 ln l2 rep member extra,
      lines = l1 ++ ln :: l2 ->
      tokens ln = rep :: member :: extra ->
      Forall (fun ln' => line_member ln' ≠ Some member) l2 ->
      PyDict.find member d = Some rep)).
Proof.
  intros lines d. split; [vm_compute; reflexivity|].
  apply (assignment_orientation lines d). vm_compute. reflexivity.
Defined.

(** The record [rep TAB mem] is stored under [mem], not under [rep]. *)
Example orientation_single_record :
  load_table [tsv_line ("rep", "mem")] = Ok [("mem", "rep")].
Proof. vm_compute. reflexivity. Qed.

(** C2, amended.  A table that names the same member on two
    lines is loaded without any error, and the member ends up mapped to the
    representative of the last of the lines that name it. *)
Theorem duplicate_member_last_write_wins
    l1 ln1 l2 ln2 l3 rep1 rep2 member extra1 extra2 :
  tokens ln1 = rep1 :: member :: extra1 ->
  tokens ln2 = rep2 :: member :: extra2 ->
  Forall (fun ln => line_member ln ≠ Some member) l3 ->
  Forall loadable (l1 ++ l2 ++ l3) ->
  exists d, load_table (l1 ++ ln1 :: l2 ++ ln2 :: l3) = Ok d /\
            PyDict.find member d = Some rep2 /\
            NoDup (PyDict.keys d).
Proof.
  intros Ht1 Ht2 Hl3 Hall.
  apply Forall_app in Hall as [H1 Hall]. apply Forall_app in Hall as [H2 H3].
  assert (Hload : Forall loadable (l1 ++ ln1 :: l2 ++ ln2 :: l3)).
  { apply Forall_app. split; [done|]. constructor.
    { unfold loadable. by rewrite Ht1. }
    apply Forall_app. split; [done|]. constructor; [|done].
    unfold loadable. by rewrite Ht2. }
  destruct (load_lines_ok _ PyDict.empty Hload) as [d Hd].
  exists d. unfold load_table. split_and!; [done | |].
  - replace (l1 ++ ln1 :: l2 ++ ln2 :: l3)
      with ((l1 ++ ln1 :: l2) ++ ln2 :: l3) in Hd
      by (by rewrite <- app_assoc).
    by eapply load_lines_last.
  - eapply load_lines_NoDup; [|exact Hd]. constructor.
Qed.

Lemma duplicate_member_last_write_wins_witness :
  let ln1 := tsv_line ("id_01", "id_02") in
  let ln2 := tsv_line ("id_03", "id_02") in
  (tokens ln1 = ["id_01"; "id_02"] /\ tokens ln2 = ["id_03"; "id_02"]) /\
  exists d, load_table ([] ++ ln1 :: [] ++ ln2 :: []) = Ok d /\
            PyDict.find "id_02" d = Some "id_03" /\
            NoDup (PyDict.keys d).
Proof.
  intros ln1 ln2. split; [split; vm_compute; reflexivity|].
  apply (duplicate_member_last_write_wins
           [] ln1 [] ln2 [] "id_01" "id_03" "id_02" [] []);
    [vm_compute; reflexivity | vm_compute; reflexivity
    | constructor | constructor].
Defined.

(** C2 as stated does not hold: two lines for the member [id_02] load
    into a dictionary, and the second line's representative is kept. *)
Lemma duplicate_member_not_rejected :
  let table := [tsv_line ("id_01", "id_02"); tsv_line ("id_03", "id_02")] in
  members table = ["id_02"; "id_02"] /\
  load_table table = Ok [("id_02", "id_03")] /\
  ~ (exists e, load_table table = Raise e).
Proof.
  intros table. split_and!; [vm_compute; reflexivity.. |].
  intros [e He]. vm_compute in He. discriminate.
Qed.

(** ** The manifest *)

(** The unrolled lookups of the row loop are the chain resolution over the
    six levels below 100, exceptions included. *)
Lemma manifest_row_resolve cds c100 :
  manifest_row cds c100 =
  row ← resolve cds coarser_levels c100; Ok (c100 :: row).
Proof.
  unfold manifest_row, coarser_levels, thresholds. simpl.
  repeat (match goal with
          | |- context [PyDict.getitem ?i ?d ?k] =>
              destruct (PyDict.getitem i d k); simpl; try done
          end).
Qed.

Lemma resolve_length cds levels x row :
  resolve cds levels x = Ok row -> length row = length levels.
Proof.
  revert x row. induction levels as [|t levels IH]; intros x row; simpl.
  - by intros [= <-].
  - destruct (PyDict.getitem KInt cds t) as [d|]; simpl; [|done].
    destruct (PyDict.getitem KStr d x) as [nxt|]; simpl; [|done].
    destruct (resolve cds levels nxt) as [r|] eqn:Hr; simpl; [|done].
    intros [= <-]. simpl. f_equal. by eapply IH.
Qed.

Lemma manifest_row_length cds c100 row :
  manifest_row cds c100 = Ok row -> length row = length thresholds.
Proof.
  rewrite manifest_row_resolve.
  destruct (resolve cds coarser_levels c100) as [r|] eqn:Hr; simpl; [|done].
  intros [= <-]. simpl. f_equal. by apply resolve_length in Hr.
Qed.


(** Each column is looked up from the column before it: two chains that
    meet stay together. *)
Lemma resolve_collapse cds levels x y rx ry i j r :
  resolve cds levels x = Ok rx -> resolve cds levels y = Ok ry ->
  rx !! i = Some r -> ry !! i = Some r -> i <= j -> rx !! j = ry !! j.
Proof.
  revert x y rx ry i j.
  induction levels as [|t levels IH]; intros x y rx ry i j; simpl.
  - by intros [= <-] [= <-].
  - destruct (PyDict.getitem KInt cds t) as [d|]; simpl; [|done].
    destruct (PyDict.getitem KStr d x) as [nx|]; simpl; [|done].
    destruct (PyDict.getitem KStr d y) as [ny|]; simpl; [|done].
    destruct (resolve cds levels nx) as [tx|] eqn:Hx; simpl; [|done].
    destruct (resolve cds levels ny) as [ty|] eqn:Hy; simpl; [|done].
    intros [= <-] [= <-]. destruct i as [|i]; simpl.
    + intros [= ->] [= ->] _. rewrite Hx in Hy. by injection Hy as ->.
    + intros Hi Hi' Hle. destruct j as [|j]; [lia|]. simpl.
      eapply IH; eauto with lia.
Qed.

(** C1.  Two rows of the manifest that carry the same value in one column
    carry equal values in every column to its right (every coarser level). *)
Theorem monotonic_collapse cds x y rx ry i j r :
  manifest_row cds x = Ok rx -> manifest_row cds y = Ok ry ->
  rx !! i = Some r -> ry !! i = Some r -> i <= j ->
  rx !! j = ry !! j.
Proof.
  intros Hrx Hry. rewrite manifest_row_resolve in Hrx, Hry.
  destruct (resolve cds coarser_levels x) as [tx|] eqn:Hx; [|done].
  destruct (resolve cds coarser_levels y) as [ty|] eqn:Hy; [|done].
  injection Hrx as <-. injection Hry as <-. destruct i as [|i]; simpl.
  - intros [= ->] [= ->] _. rewrite Hx in Hy. by injection Hy as ->.
  - intros Hi Hi' Hle. destruct j as [|j]; [lia|]. simpl.
    eapply resolve_collapse; eauto with lia.
Qed.

Lemma monotonic_collapse_witness :
  let rx := ["id_01"; "id_01"; "id_01"; "id_01"; "id_01"; "id_01"; "id_03"] in
  let ry := ["id_02"; "id_01"; "id_01"; "id_01"; "id_01"; "id_01"; "id_03"] in
  (manifest_row mock_cluster_dicts "id_01" = Ok rx /\
   manifest_row mock_cluster_dicts "id_02" = Ok ry /\
   rx !! 1%nat = Some "id_01" /\ ry !! 1%nat = Some "id_01" /\ 1 <= 6) /\
  rx !! 6%nat = ry !! 6%nat.
Proof.
  intros rx ry. split; [split_and!; [vm_compute; reflexivity.. | lia]|].
  apply (monotonic_collapse mock_cluster_dicts "id_01" "id_02" rx ry 1 6
           "id_01"); [vm_compute; reflexivity.. | lia].
Defined.

(** What the loader leaves in [cluster_dicts]: for every level of the list
    the dictionary of that level's table, and nothing else touched. *)
Lemma load_levels_find fs levels cds0 cds :
  load_levels fs levels cds0 = Ok cds -> NoDup levels ->
  forall t,
    (t ∈ levels ->
     exists lines d, fs (tsv_path t) = Some lines /\
                     load_table lines = Ok d /\
                     PyDict.find t cds = Some d) /\
    (t ∉ levels -> PyDict.find t cds = PyDict.find t cds0).
Proof.
  revert cds0. induction levels as [|th levels IH]; intros cds0; simpl.
  - intros [= <-] _ t. split; [by intros ?%elem_of_nil | done].
  - unfold open. destruct (fs (tsv_path th)) as [lines|] eqn:Hfs; [|done].
    simpl. destruct (load_table lines) as [d|] eqn:Hd; simpl; [|done].
    intros Hl [Hth Hnd]%NoDup_cons t.
    destruct (IH _ Hl Hnd t) as [Hin Hout]. split.
    + intros [->|Ht]%elem_of_cons; [|by apply Hin].
      exists lines, d. split_and!; [done..|].
      destruct (IH _ Hl Hnd th) as [_ Hout']. rewrite (Hout' Hth).
      apply PyDictFacts.find_set_eq.
    + intros Hnin. rewrite elem_of_cons in Hnin.
      rewrite Hout by tauto. apply PyDictFacts.find_set_ne. intros ->. tauto.
Qed.

Lemma thresholds_NoDup : NoDup thresholds.
Proof. by apply (bool_decide_unpack (NoDup thresholds)). Qed.

Lemma load_cluster_dicts_find fs cds t :
  load_cluster_dicts fs = Ok cds -> t ∈ thresholds ->
  exists lines d, fs (tsv_path t) = Some lines /\
                  load_table lines = Ok d /\
                  PyDict.find t cds = Some d.
Proof.
  intros Hl Ht.
  by destruct (load_levels_find _ _ _ _ Hl thresholds_NoDup t) as [H _]; auto.
Qed.

Lemma resolve_cons cds t levels x :
  resolve cds (t :: levels) x =
  d ← PyDict.getitem KInt cds t;
  nxt ← PyDict.getitem KStr d x;
  row ← resolve cds levels nxt;
  Ok (nxt :: row).
Proof. reflexivity. Qed.

Lemma getitem_Some {K V} `{EqDecision K} inj (d : PyDict.t K V) k v :
  PyDict.find k d = Some v -> PyDict.getitem inj d k = Ok v.
Proof. unfold PyDict.getitem. by intros ->. Qed.

Lemma getitem_None {K V} `{EqDecision K} inj (d : PyDict.t K V) k :
  PyDict.find k d = None -> PyDict.getitem inj d k = Raise (KeyError (inj k)).
Proof. unfold PyDict.getitem. by intros ->. Qed.

(** Where a chain resolution stops: at the first level whose dictionary
    lacks the value reached so far, with a [KeyError] for that value. *)
Lemma resolve_raise cds levels x e :
  (forall t, t ∈ levels -> is_Some (PyDict.find t cds)) ->
  resolve cds levels x = Raise e ->
  exists pre t rest chain d k,
    levels = pre ++ t :: rest /\
    resolve cds pre x = Ok chain /\
    last (x :: chain) = Some k /\
    PyDict.find t cds = Some d /\
    PyDict.find k d = None /\
    e = KeyError (KStr k).
Proof.
  revert x. induction levels as [|t levels IH]; intros x Hall; [done|].
  destruct (Hall t) as [d Hd]; [left|].
  rewrite resolve_cons, (getitem_Some _ _ _ _ Hd). simpl.
  destruct (PyDict.find x d) as [nxt|] eqn:Hx.
  - rewrite (getitem_Some _ _ _ _ Hx). simpl.
    destruct (resolve cds levels nxt) as [row|e'] eqn:Hr; simpl; [done|].
    intros [= <-].
    destruct (IH nxt) as (pre & t' & rest & chain & d' & k & -> & Hc
                            & Hlast & Hd' & Hk & ->); [|done|].
    { intros t' Ht'. apply Hall. by right. }
    exists (t :: pre), t', rest, (nxt :: chain), d', k.
    split_and!; try done.
    rewrite resolve_cons, (getitem_Some _ _ _ _ Hd). simpl.
    rewrite (getitem_Some _ _ _ _ Hx). simpl. by rewrite Hc.
  - rewrite (getitem_None _ _ _ Hx). simpl.
    intros [= <-]. exists [], t, levels, [], d, x. by split_and!.
Qed.

Lemma manifest_row_raise cds c100 e :
  (forall t, t ∈ thresholds -> is_Some (PyDict.find t cds)) ->
  manifest_row cds c100 = Raise e ->
  exists t k, e = KeyError (KStr k) /\ chain_breaks cds c100 t k.
Proof.
  intros Hall. rewrite manifest_row_resolve.
  destruct (resolve cds coarser_levels c100) as [row|e'] eqn:Hr; [done|].
  simpl. intros [= <-].
  apply resolve_raise in Hr
    as (pre & t & rest & chain & d & k & Heq & Hc & Hlast & Hd & Hk & ->).
  - exists t, k. split; [done|]. by exists pre, rest, chain, d.
  - intros t Ht. apply Hall. by right.
Qed.

(** The rows the loop writes: complete rows for the names before the first
    one whose chain breaks, and nothing for that name or after it. *)
Lemma write_rows_spec cds names f :
  exists written pending rows,
    names = written ++ pending /\
    Forall2 (fun x row => manifest_row cds x = Ok row) written rows /\
    (write_rows cds names f).1 = f ++ map csv_line rows /\
    ((write_rows cds names f).2 = Ok tt /\ pending = [] \/
     exists x rest e, pending = x :: rest /\
                      manifest_row cds x = Raise e /\
                      (write_rows cds names f).2 = Raise e).
Proof.
  revert f. induction names as [|x names IH]; intros f; simpl.
  - exists [], [], []. split_and!; [done | constructor | | by left].
    simpl. by rewrite app_nil_r.
  - destruct (manifest_row cds x) as [row|e] eqn:Hrow.
    + destruct (IH (f ++ [csv_line row]))
        as (written & pending & rows & -> & Hrows & Hf & Hres).
      exists (x :: written), pending, (row :: rows).
      split_and!; [done | by constructor | | done].
      rewrite Hf. simpl. by rewrite <- app_assoc.
    + exists [], (x :: names), []. split_and!; [done | constructor | |].
      * simpl. by rewrite app_nil_r.
      * right. by exists x, names, e.
Qed.

Lemma getitem_Ok {K V} `{EqDecision K} inj (d : PyDict.t K V) k v :
  PyDict.getitem inj d k = Ok v -> PyDict.find k d = Some v.
Proof.
  unfold PyDict.getitem. destruct (PyDict.find k d); [by intros [= ->] | done].
Qed.

(** A row that the loop body builds is the lineage of its identifier. *)
Lemma manifest_row_lineage cds c100 row :
  manifest_row cds c100 = Ok row -> lineage_of cds c100 row.
Proof.
  unfold manifest_row.
  destruct (PyDict.getitem KInt cds 99%nat) as [d99|] eqn:Hd99; [|done].
  simpl.
  destruct (PyDict.getitem KStr d99 c100) as [c99|] eqn:Hc99; [|done]. simpl.
  destruct (PyDict.getitem KInt cds 98%nat) as [d98|] eqn:Hd98; [|done].
  simpl.
  destruct (PyDict.getitem KStr d98 c99) as [c98|] eqn:Hc98; [|done]. simpl.
  destruct (PyDict.getitem KInt cds 96%nat) as [d96|] eqn:Hd96; [|done].
  simpl.
  destruct (PyDict.getitem KStr d96 c98) as [c96|] eqn:Hc96; [|done]. simpl.
  destruct (PyDict.getitem KInt cds 94%nat) as [d94|] eqn:Hd94; [|done].
  simpl.
  destruct (PyDict.getitem KStr d94 c96) as [c94|] eqn:Hc94; [|done]. simpl.
  destruct (PyDict.getitem KInt cds 92%nat) as [d92|] eqn:Hd92; [|done].
  simpl.
  destruct (PyDict.getitem KStr d92 c94) as [c92|] eqn:Hc92; [|done]. simpl.
  destruct (PyDict.getitem KInt cds 90%nat) as [d90|] eqn:Hd90; [|done].
  simpl.
  destruct (PyDict.getitem KStr d90 c92) as [c90|] eqn:Hc90; [|done]. simpl.
  intros [= <-]. apply getitem_Ok in Hd99, Hc99, Hd98, Hc98, Hd96, Hc96,
    Hd94, Hc94, Hd92, Hc92, Hd90, Hc90.
  split_and!; [done..|]. intros i t Hi.
  destruct i as [|[|[|[|[|[|i]]]]]]; [..|done]; injection Hi as <-.
  - by exists d99, c100, c99.
  - by exists d98, c99, c98.
  - by exists d96, c98, c96.
  - by exists d94, c96, c94.
  - by exists d92, c94, c92.
  - by exists d90, c92, c90.
Qed.

(** Conversely the lineage of an identifier, when there is one, is the row
    the loop body builds. *)
Lemma lineage_manifest_row cds c100 row :
  lineage_of cds c100 row -> manifest_row cds c100 = Ok row.
Proof.
  intros (Hlen & Hhd & Hstep).
  destruct row as [|r0 [|r1 [|r2 [|r3 [|r4 [|r5 [|r6 [|r7 row]]]]]]]];
    try done.
  injection Hhd as ->.
  destruct (Hstep 0 99 eq_refl)%nat as (d99 & ? & ? & Hd99 & [= <-] & [= <-] & H99).
  destruct (Hstep 1 98 eq_refl)%nat as (d98 & ? & ? & Hd98 & [= <-] & [= <-] & H98).
  destruct (Hstep 2 96 eq_refl)%nat as (d96 & ? & ? & Hd96 & [= <-] & [= <-] & H96).
  destruct (Hstep 3 94 eq_refl)%nat as (d94 & ? & ? & Hd94 & [= <-] & [= <-] & H94).
  destruct (Hstep 4 92 eq_refl)%nat as (d92 & ? & ? & Hd92 & [= <-] & [= <-] & H92).
  destruct (Hstep 5 90 eq_refl)%nat as (d90 & ? & ? & Hd90 & [= <-] & [= <-] & H90).
  unfold manifest_row.
  rewrite (getitem_Some _ _ _ _ Hd99). simpl.
  rewrite (getitem_Some _ _ _ _ H99). simpl.
  rewrite (getitem_Some _ _ _ _ Hd98). simpl.
  rewrite (getitem_Some _ _ _ _ H98). simpl.
  rewrite (getitem_Some _ _ _ _ Hd96). simpl.
  rewrite (getitem_Some _ _ _ _ H96). simpl.
  rewrite (getitem_Some _ _ _ _ Hd94). simpl.
  rewrite (getitem_Some _ _ _ _ H94). simpl.
  rewrite (getitem_Some _ _ _ _ Hd92). simpl.
  rewrite (getitem_Some _ _ _ _ H92). simpl.
  rewrite (getitem_Some _ _ _ _ Hd90). simpl.
  by rewrite (getitem_Some _ _ _ _ H90).
Qed.

(** A broken chain raises: with the levels before [t] resolved up to [k]
    and no entry for [k] at [t], resolution raises [KeyError] for [k]. *)
Lemma resolve_break cds pre t rest x chain d k :
  resolve cds pre x = Ok chain ->
  last (x :: chain) = Some k ->
  PyDict.find t cds = Some d ->
  PyDict.find k d = None ->
  resolve cds (pre ++ t :: rest) x = Raise (KeyError (KStr k)).
Proof.
  intros Hpre Hlast Hd Hk. revert x chain Hpre Hlast.
  induction pre as [|t' pre IH]; intros x chain.
  - intros [= <-] [= <-]. cbn [app]. rewrite resolve_cons.
    rewrite (getitem_Some _ _ _ _ Hd). simpl.
    by rewrite (getitem_None _ _ _ Hk).
  - cbn [app]. rewrite !resolve_cons.
    destruct (PyDict.getitem KInt cds t') as [d'|]; [|done]. simpl.
    destruct (PyDict.getitem KStr d' x) as [nxt|]; [|done]. simpl.
    destruct (resolve cds pre nxt) as [c1|] eqn:Hc1; [|done]. simpl.
    intros [= <-] Hlast.
    change (last (x :: nxt :: c1)) with (last (nxt :: c1)) in Hlast.
    by rewrite (IH nxt c1 Hc1 Hlast).
Qed.

Lemma chain_breaks_raises cds c100 t k :
  chain_breaks cds c100 t k ->
  manifest_row cds c100 = Raise (KeyError (KStr k)).
Proof.
  intros (pre & rest & chain & d & Hsplit & Hpre & Hlast & Hd & Hk).
  rewrite manifest_row_resolve, Hsplit.
  by rewrite (resolve_break _ _ _ _ _ _ _ _ Hpre Hlast Hd Hk).
Qed.

(** C4.  After a successful load the row loop does, for every identifier,
    one of two things.  Either it builds the lineage of the identifier: a
    row with one entry per threshold whose first entry is the identifier
    and whose every later entry is the value stored for the entry before it
    in the dictionary of that level (no value is made up).  Or, when the
    dictionary of some level lacks the value the chain has reached, and only
    then, it raises a [KeyError] for that value.  The file holds the header
    and lineages only: those of the seeds before the first broken chain,
    and nothing for that seed. *)
Theorem chain_completeness fs cds :
  load_cluster_dicts fs = Ok cds ->
  exists d99,
    PyDict.find 99%nat cds = Some d99 /\
    (forall c100, c100 ∈ PyDict.keys d99 ->
       (exists row, manifest_row cds c100 = Ok row /\
                    length row = length thresholds /\
                    lineage_of cds c100 row) \/
       (exists t k, manifest_row cds c100 = Raise (KeyError (KStr k)) /\
                    chain_breaks cds c100 t k)) /\
    (forall c100 row,
       manifest_row cds c100 = Ok row <-> lineage_of cds c100 row) /\
    (forall c100 k,
       manifest_row cds c100 = Raise (KeyError (KStr k)) <->
       exists t, chain_breaks cds c100 t k) /\
    exists written pending rows,
      PyDict.keys d99 = written ++ pending /\
      Forall2 (fun x row => manifest_row cds x = Ok row /\
                            length row = length thresholds /\
                            lineage_of cds x row) written rows /\
      (write_manifest cds).1 = csv_line header :: map csv_line rows /\
      ((write_manifest cds).2 = Ok tt /\ pending = [] \/
       exists x rest t k,
         pending = x :: rest /\
         (write_manifest cds).2 = Raise (KeyError (KStr k)) /\
         chain_breaks cds x t k).
Proof.
  intros Hload.
  assert (Hall : forall t, t ∈ thresholds -> is_Some (PyDict.find t cds)).
  { intros t Ht.
    destruct (load_cluster_dicts_find _ _ _ Hload Ht) as (? & d & _ & _ & Hd).
    by exists d. }
  destruct (Hall 99%nat) as [d99 Hd99]; [right; left|].
  exists d99. split_and!; [done | | | |].
  - intros c100 _. destruct (manifest_row cds c100) as [row|e] eqn:Hrow.
    + left. exists row. split_and!; [done | |].
      * by eapply manifest_row_length.
      * by apply manifest_row_lineage.
    + right. destruct (manifest_row_raise _ _ _ Hall Hrow) as (t & k & -> & Hb).
      by exists t, k.
  - intros c100 row. split;
      [apply manifest_row_lineage | apply lineage_manifest_row].
  - intros c100 k. split.
    + intros Hrow.
      destruct (manifest_row_raise _ _ _ Hall Hrow) as (t & k' & [= <-] & Hb).
      by exists t.
    + intros [t Hb]. by eapply chain_breaks_raises.
  - unfold write_manifest. rewrite (getitem_Some _ _ _ _ Hd99).
    cbn beta iota zeta.
    destruct (write_rows_spec cds (PyDict.keys d99) [csv_line header])
      as (written & pending & rows & Hsplit & Hrows & Hf & Hres).
    exists written, pending, rows. split_and!; [done | | exact Hf |].
    + eapply Forall2_impl; [exact Hrows|]. intros x row Hrow. simpl in Hrow.
      split_and!; [done | |].
      * by eapply manifest_row_length.
      * by apply manifest_row_lineage.
    + destruct Hres as [?|(x & rest & e & -> & Hrow & Hres)]; [by left|].
      right. destruct (manifest_row_raise _ _ _ Hall Hrow) as (t & k & -> & Hb).
      by exists x, rest, t, k.
Qed.

Lemma chain_completeness_witness :
  load_cluster_dicts mock_fs = Ok mock_cluster_dicts /\
  exists d99,
    PyDict.find 99%nat mock_cluster_dicts = Some d99 /\
    (forall c100, c100 ∈ PyDict.keys d99 ->
       (exists row, manifest_row mock_cluster_dicts c100 = Ok row /\
                    length row = length thresholds /\
                    lineage_of mock_cluster_dicts c100 row) \/
       (exists t k,
          manifest_row mock_cluster_dicts c100 = Raise (KeyError (KStr k)) /\
          chain_breaks mock_cluster_dicts c100 t k)) /\
    (forall c100 row,
       manifest_row mock_cluster_dicts c100 = Ok row
       <-> lineage_of mock_cluster_dicts c100 row) /\
    (forall c100 k,
       manifest_row mock_cluster_dicts c100 = Raise (KeyError (KStr k)) <->
       exists t, chain_breaks mock_cluster_dicts c100 t k) /\
    exists written pending rows,
      PyDict.keys d99 = written ++ pending /\
      Forall2 (fun x row => manifest_row mock_cluster_dicts x = Ok row /\
                            length row = length thresholds /\
                            lineage_of mock_cluster_dicts x row)
        written rows /\
      (write_manifest mock_cluster_dicts).1
        = csv_line header :: map csv_line rows /\
      ((write_manifest mock_cluster_dicts).2 = Ok tt /\ pending = [] \/
       exists x rest t k,
         pending = x :: rest /\
         (write_manifest mock_cluster_dicts).2 = Raise (KeyError (KStr k)) /\
         chain_breaks mock_cluster_dicts x t k).
Proof.
  split; [vm_compute; reflexivity|].
  apply (chain_completeness mock_fs mock_cluster_dicts).
  vm_compute. reflexivity.
Defined.

(** A broken chain at work: the rows of [id_01] and [id_02] are written,
    then the lookup of [id_03] at 98 raises and nothing more is written. *)
Example broken_chain_run :
  (cds ← load_cluster_dicts broken_fs; Ok (write_manifest cds)) =
  Ok ([csv_line header;
       csv_line ["id_01"; "id_01"; "id_01"; "id_01"; "id_01"; "id_01"; "id_03"];
       csv_line ["id_02"; "id_01"; "id_01"; "id_01"; "id_01"; "id_01"; "id_03"]],
      Raise (KeyError (KStr "id_03"))).
Proof. vm_compute. reflexivity. Qed.

Lemma chain_closedb_sound cds levels :
  chain_closedb cds levels = true -> chain_closed_on cds levels.
Proof.
  induction levels as [|a [|b rest] IH]; [done..|].
  cbn [chain_closedb chain_closed_on]. intros [Hab Hrest]%andb_true_iff.
  split; [|by apply IH]. intros da Hda. rewrite Hda in Hab.
  destruct (PyDict.find b cds) as [db|]; [|done].
  exists db. split; [done|]. intros v Hv.
  rewrite forallb_forall in Hab. apply list_elem_of_In in Hv.
  apply Hab in Hv. by apply bool_decide_eq_true in Hv.
Qed.

Lemma resolve_step cds t levels x d nxt :
  PyDict.find t cds = Some d -> PyDict.find x d = Some nxt ->
  resolve cds (t :: levels) x = row ← resolve cds levels nxt; Ok (nxt :: row).
Proof.
  intros Hd Hx. rewrite resolve_cons, (getitem_Some _ _ _ _ Hd). simpl.
  by rewrite (getitem_Some _ _ _ _ Hx).
Qed.

(** Under the parent and child relation every chain resolves. *)
Lemma resolve_closed cds t rest d x :
  chain_closed_on cds (t :: rest) ->
  PyDict.find t cds = Some d -> x ∈ PyDict.keys d ->
  exists row, resolve cds (t :: rest) x = Ok row.
Proof.
  revert t d x. induction rest as [|b rest IH]; intros t d x Hcl Hd Hx.
  - apply PyDictFacts.find_is_Some in Hx as [nxt Hnxt].
    exists [nxt]. by rewrite (resolve_step _ _ _ _ _ _ Hd Hnxt).
  - apply PyDictFacts.find_is_Some in Hx as [nxt Hnxt].
    destruct Hcl as [Hab Hcl]. destruct (Hab d Hd) as (db & Hdb & Hsub).
    destruct (IH b db nxt Hcl Hdb) as [row Hrow].
    { apply Hsub. apply PyDictFacts.find_Some_elem_of in Hnxt.
      unfold PyDict.values. apply list_elem_of_fmap. by exists (x, nxt). }
    exists (nxt :: row).
    by rewrite (resolve_step _ _ _ _ _ _ Hd Hnxt), Hrow.
Qed.



(** The mock dictionaries keep the parent and child relation, so the mock
    manifest is complete. *)
Example mock_chain_closed : chain_closed mock_cluster_dicts.
Proof. apply chain_closedb_sound. vm_compute. reflexivity. Qed.

(** C9.  On the mock tables of the walk-through (99 merges [id_02] into
    [id_01], the levels 98 to 92 are identities, 90 sends [id_01] to
    [id_03]) the header names one column per threshold in descending
    order and the row of [id_02] reads
    [id_02,id_01,id_01,id_01,id_01,id_01,id_03]. *)
Theorem reference_example :
  load_cluster_dicts mock_fs = Ok mock_cluster_dicts /\
  PyDict.find 99%nat mock_cluster_dicts
    = Some [("id_01", "id_01"); ("id_02", "id_01"); ("id_03", "id_03");
            ("id_04", "id_04"); ("id_05", "id_05")] /\
  Forall (fun t => PyDict.find t mock_cluster_dicts
                   = Some [("id_01", "id_01"); ("id_03", "id_03");
                           ("id_04", "id_04"); ("id_05", "id_05")])
    [98; 96; 94; 92]%nat /\
  PyDict.find 90%nat mock_cluster_dicts
    = Some [("id_01", "id_03"); ("id_03", "id_03");
            ("id_04", "id_04"); ("id_05", "id_05")] /\
  write_manifest mock_cluster_dicts =
    ([ "antiref100,antiref99,antiref98,antiref96,antiref94,antiref92,antiref90"
         +:+ nl;
       "id_01,id_01,id_01,id_01,id_01,id_01,id_03" +:+ nl;
       "id_02,id_01,id_01,id_01,id_01,id_01,id_03" +:+ nl;
       "id_03,id_03,id_03,id_03,id_03,id_03,id_03" +:+ nl;
       "id_04,id_04,id_04,id_04,id_04,id_04,id_04" +:+ nl;
       "id_05,id_05,id_05,id_05,id_05,id_05,id_05" +:+ nl ], Ok tt) /\
  manifest_row mock_cluster_dicts "id_02"
    = Ok ["id_02"; "id_01"; "id_01"; "id_01"; "id_01"; "id_01"; "id_03"].
Proof.
  split_and!; try (vm_compute; reflexivity).
  repeat constructor.
Qed.

(** ** The size summary counts the distinct representatives *)

Lemma string_compare_refl s : String.compare s s = Eq.
Proof.
  induction s as [|c s IH]; simpl; [done|].
  unfold Ascii.compare. by rewrite N.compare_refl.
Qed.

Lemma string_compare_trans c s1 s2 s3 :
  String.compare s1 s2 = c -> String.compare s2 s3 = c ->
  String.compare s1 s3 = c.
Proof.
  revert s2 s3. induction s1 as [|c1 s1 IH]; intros [|c2 s2] [|c3 s3]; simpl;
    try congruence.
  unfold Ascii.compare.
  destruct (N.compare_spec (N_of_ascii c1) (N_of_ascii c2)) as [H12|H12|H12];
    destruct (N.compare_spec (N_of_ascii c2) (N_of_ascii c3)) as [H23|H23|H23];
    try congruence.
  - rewrite H12, H23, N.compare_refl. apply IH.
  - replace (N_of_ascii c1 ?= N_of_ascii c3)%N with Lt; [congruence|].
    symmetry. apply N.compare_lt_iff. lia.
  - replace (N_of_ascii c1 ?= N_of_ascii c3)%N with Gt; [congruence|].
    symmetry. apply N.compare_gt_iff. lia.
  - replace (N_of_ascii c1 ?= N_of_ascii c3)%N with Lt; [congruence|].
    symmetry. apply N.compare_lt_iff. lia.
  - replace (N_of_ascii c1 ?= N_of_ascii c3)%N with Lt; [congruence|].
    symmetry. apply N.compare_lt_iff. lia.
  - replace (N_of_ascii c1 ?= N_of_ascii c3)%N with Gt; [congruence|].
    symmetry. apply N.compare_gt_iff. lia.
  - replace (N_of_ascii c1 ?= N_of_ascii c3)%N with Gt; [congruence|].
    symmetry. apply N.compare_gt_iff. lia.
Qed.

Lemma string_leb_trans :
  Transitive (fun x y : string => is_true (String.leb x y)).
Proof.
  intros s1 s2 s3. unfold String.leb, is_true.
  destruct (String.compare s1 s2) eqn:H12; [| |done];
    destruct (String.compare s2 s3) eqn:H23; try done; intros _ _.
  - by rewrite (string_compare_trans _ _ _ _ H12 H23).
  - apply String.compare_eq_iff in H12 as ->. by rewrite H23.
  - apply String.compare_eq_iff in H23 as <-. by rewrite H12.
  - by rewrite (string_compare_trans _ _ _ _ H12 H23).
Qed.

Lemma uniq_c_elem x l : x ∈ map snd (uniq_c l) <-> x ∈ l.
Proof.
  induction l as [|y l IH]; simpl; [done|].
  destruct (uniq_c l) as [|[n z] r] eqn:Hu; simpl in *.
  - rewrite !elem_of_cons. tauto.
  - case_decide as Hyz; simpl; rewrite !elem_of_cons in *; [subst|]; tauto.
Qed.

Lemma uniq_c_head l :
  head (map snd (uniq_c l)) = head l.
Proof.
  induction l as [|y l IH]; simpl; [done|].
  destruct (uniq_c l) as [|[n z] r] eqn:Hu; simpl in *; [done|].
  case_decide as Hyz; simpl; [by subst | done].
Qed.

(** On a sorted list the runs are the distinct lines. *)
Lemma uniq_c_NoDup l :
  StronglySorted (fun x y : string => is_true (String.leb x y)) l ->
  NoDup (map snd (uniq_c l)).
Proof.
  induction 1 as [|y l Hs IH Hall]; simpl; [constructor|].
  pose proof (uniq_c_head l) as Hhd.
  pose proof (fun x => uniq_c_elem x l) as Hel.
  destruct (uniq_c l) as [|[n z] r] eqn:Hu; simpl in *.
  - apply NoDup_singleton.
  - case_decide as Hyz; simpl; [done|].
    constructor; [|done]. intros Hin. apply Hel in Hin.
    destruct l as [|z' l']; simpl in Hhd; [done|]. injection Hhd as <-.
    apply Hyz. apply String.leb_antisym.
    + rewrite Forall_forall in Hall. apply Hall. left.
    + apply elem_of_cons in Hin as [->|Hin].
      * unfold String.leb. by rewrite string_compare_refl.
      * apply StronglySorted_inv in Hs as [_ Hz].
        rewrite Forall_forall in Hz. by apply Hz.
Qed.

(** [wc -l] of [sort | uniq -c] is the number of distinct lines. *)
Lemma uniq_c_sort_length l :
  length (uniq_c (StringSort.sort l)) = length (remove_dups l).
Proof.
  rewrite <- (length_map snd). apply Permutation_length.
  apply NoDup_Permutation.
  - apply uniq_c_NoDup, StringSort.StronglySorted_sort, string_leb_trans.
  - apply NoDup_remove_dups.
  - intros x. rewrite uniq_c_elem, elem_of_remove_dups.
    by rewrite <- (StringSort.Permuted_sort l).
Qed.

Lemma cut_f1_tsv_line r m : field_ok r = true -> cut_f1 (tsv_line (r, m)) = r.
Proof.
  unfold tsv_line. simpl. induction r as [|c r IH]; simpl.
  - done.
  - intros [[Ht Hl]%andb_true_iff Hr]%andb_true_iff.
    apply negb_true_iff, bool_decide_eq_false in Ht, Hl.
    rewrite !decide_False by done. f_equal. by apply IH.
Qed.

Lemma level_count_distinct (tsv : tables) t :
  tables_ok tsv -> t ∈ thresholds ->
  level_count tsv t = length (remove_dups (map fst (tsv t))).
Proof.
  intros Hok Ht. unfold level_count, cluster_count, cluster_sizes.
  rewrite uniq_c_sort_length. do 2 f_equal.
  rewrite map_map. apply map_ext_in. intros [r m] Hin. simpl.
  apply cut_f1_tsv_line. apply (Hok t r m Ht). by apply list_elem_of_In.
Qed.

(** When each member has one representative there are no more distinct
    representatives than distinct members. *)
Lemma distinct_reps_le_members (recs : list (string * string)) :
  one_rep_per_member recs ->
  length (remove_dups (map fst recs)) <= length (remove_dups (map snd recs)).
Proof.
  intros Hfun.
  set (rep_of m := match list_find (fun p => p.2 = m) recs with
                   | Some (_, p) => p.1
                   | None => EmptyString
                   end).
  rewrite <- (length_map rep_of (remove_dups (map snd recs))).
  apply submseteq_length, NoDup_submseteq; [apply NoDup_remove_dups|].
  intros r [[r' m] [Hr Hin]]%elem_of_remove_dups%list_elem_of_fmap.
  simpl in Hr. subst r'. apply list_elem_of_fmap. exists m. split.
  - unfold rep_of.
    destruct (list_find (fun p => p.2 = m) recs) as [[i [r2 m2]]|] eqn:Hf.
    + apply list_find_Some in Hf as (Hi & Hm & _). simpl in *. subst m2.
      apply (Hfun r r2 m Hin). by eapply list_elem_of_lookup_2.
    + apply list_find_None in Hf. rewrite Forall_forall in Hf.
      by destruct (Hf (r, m) Hin).
  - apply elem_of_remove_dups, list_elem_of_fmap. by exists (r, m).
Qed.

Lemma distinct_length_ext (l1 l2 : list string) :
  (forall x, x ∈ l1 <-> x ∈ l2) ->
  length (remove_dups l1) = length (remove_dups l2).
Proof.
  intros Heq. apply Permutation_length, NoDup_Permutation;
    [apply NoDup_remove_dups.. |].
  intros x. by rewrite !elem_of_remove_dups.
Qed.

(** The parent of every level but the first is the sequence database of the
    level before it. *)
Lemma parent_wiring i a b :
  thresholds !! i = Some a -> thresholds !! S i = Some b ->
  PyDict.find b parent_lookup
    = Some ("./data/antiref/seqdb/antiref" +:+ pretty a).
Proof.
  intros Ha Hb.
  do 6 (destruct i as [|i];
        [injection Ha as <-; injection Hb as <-; vm_compute; reflexivity|]).
  destruct i; discriminate.
Qed.

Lemma thresholds_decreasing i a b :
  thresholds !! i = Some a -> thresholds !! S i = Some b -> b < a.
Proof.
  intros Ha Hb.
  do 6 (destruct i as [|i];
        [injection Ha as <-; injection Hb as <-; lia|]).
  destruct i; discriminate.
Qed.

(** C7.  For tables as the clustering step writes them (one pair per
    member, so no member under two representatives) in which each level's
    members are the representatives of the level before it, the cluster
    counts never grow along the (strictly decreasing) thresholds. *)
Theorem count_monotonicity (tsv : tables) :
  tables_ok tsv ->
  parent_invariant tsv ->
  (forall t, t ∈ thresholds -> one_rep_per_member (tsv t)) ->
  counts_non_increasing tsv /\
  (forall i a b,
     thresholds !! i = Some a -> thresholds !! S i = Some b -> b < a).
Proof.
  intros Hok Hinv Hfun. split; [|apply thresholds_decreasing].
  intros i a b Ha Hb.
  assert (Hina : a ∈ thresholds) by (by eapply list_elem_of_lookup_2).
  assert (Hinb : b ∈ thresholds) by (by eapply list_elem_of_lookup_2).
  rewrite !level_count_distinct by done.
  etrans; [apply distinct_reps_le_members; by apply Hfun|].
  apply Nat.eq_le_incl, distinct_length_ext. by apply (Hinv i).
Qed.

Ltac each_threshold H :=
  unfold thresholds in H;
  repeat (apply elem_of_cons in H as [->|H]);
  [..| by apply elem_of_nil in H].

Ltac each_record H :=
  repeat (apply elem_of_cons in H as [H|H]);
  [..| by apply elem_of_nil in H].

Lemma thresholds_steps i a b :
  thresholds !! i = Some a -> thresholds !! S i = Some b ->
  (a, b) ∈ [(100, 99); (99, 98); (98, 96); (96, 94); (94, 92); (92, 90)]%nat.
Proof.
  intros Ha Hb.
  do 6 (destruct i as [|i];
        [injection Ha as <-; injection Hb as <-;
         apply (bool_decide_unpack (_ ∈ _)); reflexivity|]).
  destruct i; discriminate.
Qed.

Ltac each_step Ha Hb :=
  let H := fresh "Hstep" in
  pose proof (thresholds_steps _ _ _ Ha Hb) as H;
  clear Ha Hb; each_record H; injection H as -> ->.

Lemma one_rep_of_NoDup (recs : list (string * string)) :
  NoDup (map snd recs) -> one_rep_per_member recs.
Proof.
  induction recs as [|[r m] recs IH]; simpl.
  - by intros _ r1 r2 m0 ?%elem_of_nil.
  - intros [Hm Hnd]%NoDup_cons r1 r2 m0 H1 H2.
    apply elem_of_cons in H1 as [E1|H1]; apply elem_of_cons in H2 as [E2|H2].
    + congruence.
    + injection E1 as -> ->. destruct Hm.
      apply list_elem_of_fmap. by exists (r2, m).
    + injection E2 as -> ->. destruct Hm.
      apply list_elem_of_fmap. by exists (r1, m).
    + by eapply IH.
Qed.

Lemma mock_tables_ok : tables_ok mock_tables.
Proof.
  intros t r m Ht Hin. each_threshold Ht; simpl in Hin; each_record Hin;
    by injection Hin as -> ->.
Qed.

Lemma mock_tables_invariant : parent_invariant mock_tables.
Proof.
  intros i a b Ha Hb x. each_step Ha Hb; simpl;
    rewrite !elem_of_cons, !elem_of_nil; tauto.
Qed.

Lemma mock_tables_one_rep t :
  t ∈ thresholds -> one_rep_per_member (mock_tables t).
Proof.
  intros Ht. apply one_rep_of_NoDup.
  each_threshold Ht;
    by apply (bool_decide_unpack (NoDup _)).
Qed.

Lemma count_monotonicity_witness :
  (tables_ok mock_tables /\
   parent_invariant mock_tables /\
   (forall t, t ∈ thresholds -> one_rep_per_member (mock_tables t))) /\
  counts_non_increasing mock_tables /\
  (forall i a b,
     thresholds !! i = Some a -> thresholds !! S i = Some b -> b < a).
Proof.
  split;
    [split_and!;
     [exact mock_tables_ok | exact mock_tables_invariant
     | exact mock_tables_one_rep]|].
  apply (count_monotonicity mock_tables);
    [exact mock_tables_ok | exact mock_tables_invariant
    | exact mock_tables_one_rep].
Defined.

Example mock_counts :
  map (level_count mock_tables) thresholds = [5; 4; 4; 4; 4; 4; 3].
Proof. vm_compute. reflexivity. Qed.

(** The count is taken from the lines of the table, not from the loaded
    dictionary: in [split_tables], which lists one member under two
    representatives, level 99 has two clusters where level 100 has one. *)
Lemma count_can_grow :
  tables_ok split_tables /\
  parent_invariant split_tables /\
  level_count split_tables 100 = 1 /\
  level_count split_tables 99 = 2 /\
  ~ counts_non_increasing split_tables.
Proof.
  split_and!.
  - intros t r m Ht Hin. each_threshold Ht; simpl in Hin; each_record Hin;
      by injection Hin as -> ->.
  - intros i a b Ha Hb x. each_step Ha Hb; simpl;
      rewrite !elem_of_cons, !elem_of_nil; intuition congruence.
  - vm_compute. reflexivity.
  - vm_compute. reflexivity.
  - intros Hmono. specialize (Hmono 0 100 99 eq_refl eq_refl)%nat.
    vm_compute in Hmono. lia.
Qed.

(** ** The clustering pipeline *)

Lemma linclust_status (World : Type) abspath isdir make_dir
    (popen1 popen2 : string -> World -> (string * string * Z) * World) :
  (forall cmd w, (popen1 cmd w).1.1 = (popen2 cmd w).1.1 /\
                 (popen1 cmd w).2 = (popen2 cmd w).2) ->
  forall t p tmp debug w,
    linclust World abspath isdir make_dir popen1 t p tmp debug w =
    linclust World abspath isdir make_dir popen2 t p tmp debug w.
Proof.
  intros Hagree t p tmp debug w. unfold linclust.
  match goal with
  | |- context [popen1 ?cmd ?w1] =>
      specialize (Hagree cmd w1);
      destruct (popen1 cmd w1) as [[[o1 e1] s1] w1'];
      destruct (popen2 cmd w1) as [[[o2 e2] s2] w2']
  end.
  simpl in Hagree. destruct Hagree as [[= -> ->] ->]. done.
Qed.

Lemma run_levels_status (World : Type) abspath isdir make_dir
    (popen1 popen2 : string -> World -> (string * string * Z) * World) :
  (forall cmd w, (popen1 cmd w).1.1 = (popen2 cmd w).1.1 /\
                 (popen1 cmd w).2 = (popen2 cmd w).2) ->
  forall levels w,
    run_levels World abspath isdir make_dir popen1 levels w =
    run_levels World abspath isdir make_dir popen2 levels w.
Proof.
  intros Hagree levels. induction levels as [|t levels IH]; intros w; [done|].
  cbn [run_levels]. destruct (PyDict.getitem KInt parent_lookup t); [|done].
  rewrite (linclust_status World abspath isdir make_dir popen1 popen2 Hagree).
  destruct (linclust World abspath isdir make_dir popen2 t a "/tmp" false w).
  apply IH.
Qed.

(** The loop never stops early on a level that has a parent: it returns
    normally, in the state that the steps leave one after the other. *)
Lemma run_levels_all (World : Type) abspath isdir make_dir popen
    (pairs : list (nat * string)) (w : World) :
  Forall (fun tp => PyDict.find tp.1 parent_lookup = Some tp.2) pairs ->
  run_levels World abspath isdir make_dir popen (map fst pairs) w =
  (Ok tt,
   fold_left
     (fun w tp =>
        (linclust World abspath isdir make_dir popen tp.1 tp.2 "/tmp" false
           w).2)
     pairs w).
Proof.
  intros Hall. revert w. induction Hall as [|[t p] pairs Hp _ IH]; intros w.
  - done.
  - cbn [map fst snd run_levels fold_left]. cbn [fst snd] in Hp.
    rewrite (getitem_Some _ _ _ _ Hp).
    destruct (linclust World abspath isdir make_dir popen t p "/tmp" false w)
      as [r w'] eqn:Hstep.
    rewrite IH. done.
Qed.

(** C3, amended.  The exit status of the tool changes nothing:
    [linclust] returns the same value and leaves the same state whatever the
    status, and the loop runs the step of every threshold in order and
    returns normally. *)
Theorem exit_status_ignored (World : Type) abspath isdir make_dir
    (popen1 popen2 : string -> World -> (string * string * Z) * World) :
  (forall cmd w, (popen1 cmd w).1.1 = (popen2 cmd w).1.1 /\
                 (popen1 cmd w).2 = (popen2 cmd w).2) ->
  (forall t p tmp debug w,
     linclust World abspath isdir make_dir popen1 t p tmp debug w =
     linclust World abspath isdir make_dir popen2 t p tmp debug w) /\
  (forall w,
     pipeline World abspath isdir make_dir popen1 w =
     pipeline World abspath isdir make_dir popen2 w /\
     pipeline World abspath isdir make_dir popen1 w =
     (Ok tt,
      fold_left
        (fun w tp =>
           (linclust World abspath isdir make_dir popen1 tp.1 tp.2 "/tmp"
              false w).2)
        parent_lookup w)).
Proof.
  intros Hagree. split; [by apply linclust_status|]. intros w. split.
  - by apply run_levels_status.
  - unfold pipeline.
    change thresholds with (map fst parent_lookup).
    apply run_levels_all. unfold parent_lookup.
    repeat constructor.
Qed.

Lemma exit_status_ignored_witness :
  (forall cmd w, (popen_with 0 cmd w).1.1 = (popen_with 1 cmd w).1.1 /\
                 (popen_with 0 cmd w).2 = (popen_with 1 cmd w).2) /\
  run_with 0 = run_with 1.
Proof.
  assert (Hagree : forall cmd w,
             (popen_with 0 cmd w).1.1 = (popen_with 1 cmd w).1.1 /\
             (popen_with 0 cmd w).2 = (popen_with 1 cmd w).2)
    by (intros cmd w; split; reflexivity).
  split; [exact Hagree|].
  apply (exit_status_ignored (list string) work_abspath
           (fun _ _ => true) (fun _ w => w)
           (popen_with 0) (popen_with 1) Hagree).
Defined.

(** C3 as stated does not hold: with a tool that exits with status 1
    on every call, the first step returns [None], the loop returns normally,
    and the commands of all seven levels have been run. *)
Lemma failing_tool_goes_unreported :
  (forall cmd w, (popen_with 1 cmd w).1.2 = 1%Z) /\
  (linclust (list string) work_abspath (fun _ _ => true) (fun _ w => w)
     (popen_with 1) 100 "./data/antiref/seqdb/init" "/tmp" false []).1 = None /\
  (run_with 1).1 = Ok tt /\
  length (run_with 1).2 = 7 /\
  head (run_with 1).2
    = Some (linclust_cmd 100 "/work/data/antiref/seqdb/init" "/tmp") /\
  last (run_with 1).2
    = Some (linclust_cmd 90 "/work/data/antiref/seqdb/antiref92" "/tmp").
Proof.
  split_and!; [done | vm_compute; reflexivity..].
Qed.

(** ** Clustering efficiency *)

Lemma truediv_bounds (c b : Z) :
  (0 < c <= b)%Z ->
  exists q, truediv c (Some b) = Ok q /\
            (0 < q)%Q /\ (q <= 1)%Q /\ (c = b -> (q == 1)%Q).
Proof.
  intros [Hc Hb]. unfold truediv. rewrite decide_False by lia.
  assert (Hb0 : (0 < inject_Z b)%Q).
  { change 0%Q with (inject_Z 0). rewrite <- Zlt_Qlt. lia. }
  eexists. split_and!; [done | | |].
  - apply Qlt_shift_div_l; [done|]. rewrite Qmult_0_l.
    change 0%Q with (inject_Z 0). rewrite <- Zlt_Qlt. lia.
  - apply Qle_shift_div_r; [done|]. rewrite Qmult_1_l.
    rewrite <- Zle_Qle. lia.
  - intros ->. unfold Qdiv. apply Qmult_inv_r.
    intros Heq. rewrite Heq in Hb0. by apply Qlt_irrefl in Hb0.
Qed.

(** Once the baseline is set, the loop appends one record per level, each
    with a ratio in (0, 1]. *)
Lemma eff_loop_bounds abspath wc_l (b : Z) levels acc :
  (forall t, t ∈ levels ->
     exists c, wc_l (size_path abspath t) = Ok c /\ (0 < c <= b)%Z /\
               (t = 100%nat -> c = b)) ->
  exists recs,
    eff_loop abspath wc_l levels (Some b) acc = Ok (acc ++ recs) /\
    map clustering_identity recs = levels /\
    Forall (fun r =>
              wc_l (size_path abspath (clustering_identity r))
                = Ok (clusters r) /\
              (0 < efficiency r)%Q /\ (efficiency r <= 1)%Q /\
              (clustering_identity r = 100%nat -> (efficiency r == 1)%Q))
      recs.
Proof.
  revert acc. induction levels as [|t levels IH]; intros acc Hall.
  - exists []. split_and!; [by rewrite app_nil_r | done | constructor].
  - destruct (Hall t) as (c & Hc & Hpos & H100); [left|].
    destruct (truediv_bounds c b Hpos) as (q & Hq & Hq0 & Hq1 & Hqb).
    destruct (IH (acc ++ [ {| clustering_identity := t;
                              clusters := c;
                              efficiency := q |} ]))
      as (recs & Hrecs & Hids & Hbounds).
    { intros t' Ht'. apply Hall. by right. }
    eexists (_ :: recs). split_and!.
    + cbn [eff_loop]. rewrite Hc. simpl.
      assert (Hst : (if decide (t = 100%nat) then Some c else Some b)
                    = Some b).
      { case_decide; [by rewrite H100 | done]. }
      rewrite Hst, Hq. simpl. rewrite Hrecs. by rewrite <- app_assoc.
    + simpl. by rewrite Hids.
    + constructor; [|done]. simpl. split_and!; [done..|].
      intros Ht. apply Hqb. by apply H100.
Qed.

(** C6, amended.  When the count of level 100 is [b]
    and every level's count is positive and at most [b], the cell produces
    one record per threshold, every ratio is in (0, 1], and the ratio of
    level 100 is 1. *)
Theorem ratio_bounds abspath wc_l (b : Z) :
  wc_l (size_path abspath 100) = Ok b ->
  b ≠ 0%Z ->
  (forall t, t ∈ thresholds ->
     exists c, wc_l (size_path abspath t) = Ok c /\ (0 < c <= b)%Z) ->
  exists recs,
    efficiencies abspath wc_l = Ok recs /\
    map clustering_identity recs = thresholds /\
    Forall (fun r =>
              wc_l (size_path abspath (clustering_identity r))
                = Ok (clusters r) /\
              (0 < efficiency r)%Q /\ (efficiency r <= 1)%Q /\
              (clustering_identity r = 100%nat -> (efficiency r == 1)%Q))
      recs.
Proof.
  intros Hb _ Hall.
  destruct (eff_loop_bounds abspath wc_l b thresholds [])
    as (recs & Hrecs & Hids & Hbounds).
  { intros t Ht. destruct (Hall t Ht) as (c & Hc & Hpos).
    exists c. split_and!; [done | lia | lia |]. intros ->. congruence. }
  exists recs. split; [|split; [exact Hids | exact Hbounds]].
  transitivity (eff_loop abspath wc_l thresholds (Some b) []);
    [|exact Hrecs].
  unfold efficiencies, thresholds. cbn [eff_loop]. by rewrite Hb.
Qed.

Lemma ratio_bounds_witness :
  (steady_wc (size_path work_abspath 100) = Ok 4%Z /\
   4%Z ≠ 0%Z /\
   (forall t, t ∈ thresholds ->
      exists c, steady_wc (size_path work_abspath t) = Ok c /\
                (0 < c <= 4)%Z)) /\
  exists recs,
    efficiencies work_abspath steady_wc = Ok recs /\
    map clustering_identity recs = thresholds /\
    Forall (fun r =>
              steady_wc (size_path work_abspath (clustering_identity r))
                = Ok (clusters r) /\
              (0 < efficiency r)%Q /\ (efficiency r <= 1)%Q /\
              (clustering_identity r = 100%nat -> (efficiency r == 1)%Q))
      recs.
Proof.
  assert (Hall : forall t, t ∈ thresholds ->
             exists c, steady_wc (size_path work_abspath t) = Ok c /\
                       (0 < c <= 4)%Z)
    by (intros t _; exists 4%Z; split; [reflexivity | lia]).
  split; [split_and!; [reflexivity | lia | exact Hall]|].
  apply (ratio_bounds work_abspath steady_wc 4);
    [reflexivity | lia | exact Hall].
Defined.

(** C6 as stated does not hold: with 2 clusters counted at level 100
    (not zero) and 3 at level 99, the ratio of level 99 is 3/2. *)
Lemma ratio_can_exceed_one :
  skewed_wc (size_path work_abspath 100) = Ok 2%Z /\
  exists recs r,
    efficiencies work_abspath skewed_wc = Ok recs /\
    recs !! 1%nat = Some r /\
    clustering_identity r = 99%nat /\
    clusters r = 3%Z /\
    (efficiency r == 3 # 2)%Q /\
    ~ (efficiency r <= 1)%Q.
Proof.
  split; [vm_compute; reflexivity|].
  eexists _, _. split_and!; [vm_compute; reflexivity | reflexivity..|].
  vm_compute. intros H. by apply H.
Qed.


(** * Further properties of the notebooks *)

(** ** Tokens *)

Lemma split_scan_rstrip s : split_scan (rstrip s) = split_scan s.
Proof.
  induction s as [|c s IH]; [done|].
  cbn [rstrip]. destruct (rstrip s) as [|c' r] eqn:Hr.
  - cbn [split_scan]. rewrite <- IH. cbn [split_scan].
    destruct (is_space c) eqn:Hc; [done|].
    cbn [split_scan]. by rewrite Hc.
  - cbn [split_scan] in *. by rewrite IH.
Qed.

Lemma split_lstrip s : split (lstrip s) = split s.
Proof.
  induction s as [|c s IH]; [done|].
  cbn [lstrip]. destruct (is_space c) eqn:Hc; [|done].
  rewrite IH. unfold split. cbn [split_scan]. rewrite Hc.
  by destruct (split_scan s) as [tok toks].
Qed.

Lemma split_strip s : split (strip s) = split s.
Proof.
  unfold strip. rewrite split_lstrip. unfold split.
  by rewrite split_scan_rstrip.
Qed.

(** X1.  Stripping the line before splitting it changes nothing: the tokens
    of a line are those that [split] alone finds, whatever whitespace
    surrounds them. *)
Theorem tokens_strip_redundant line : tokens line = split line.
Proof.
  unfold tokens, strip.
  transitivity (split (rstrip line)); [apply split_lstrip|].
  unfold split. by rewrite split_scan_rstrip.
Qed.

Lemma split_scan_words s tok toks :
  split_scan s = (tok, toks) -> no_space tok = true /\ Forall word toks.
Proof.
  revert tok toks. induction s as [|c s IH]; intros tok toks.
  - intros [= <- <-]. by split.
  - cbn [split_scan]. destruct (split_scan s) as [tok' toks'].
    destruct (IH tok' toks' eq_refl) as [Htok Htoks].
    destruct (is_space c) eqn:Hc.
    + intros [= <- <-]. split; [done|].
      destruct tok' as [|c' tok']; [done|]. by constructor.
    + intros [= <- <-]. split; [|done]. simpl. by rewrite Hc.
Qed.

Lemma split_words s : Forall word (split s).
Proof.
  unfold split. destruct (split_scan s) as [tok toks] eqn:Hs.
  apply split_scan_words in Hs as [Htok Htoks].
  destruct tok as [|c tok]; [done|]. by constructor.
Qed.

Lemma tokens_words line : Forall word (tokens line).
Proof. unfold tokens. rewrite split_strip. apply split_words. Qed.

Lemma split_scan_word w s :
  no_space w = true ->
  split_scan (w +:+ s) = ((w +:+ (split_scan s).1), (split_scan s).2).
Proof.
  induction w as [|c w IH].
  - intros _. change (EmptyString +:+ s) with s. by destruct (split_scan s).
  - cbn [no_space]. intros [Hc Hw]%andb_true_iff. apply negb_true_iff in Hc.
    change (String c w +:+ s) with (String c (w +:+ s)). cbn [split_scan].
    by rewrite (IH Hw), Hc.
Qed.

(** The loader reads a line of [createtsv] back as its two fields. *)
Lemma tokens_tsv_line r m :
  word r -> word m -> tokens (tsv_line (r, m)) = [r; m].
Proof.
  intros [Hr0 Hr] [Hm0 Hm]. unfold tokens. rewrite split_strip.
  unfold split, tsv_line. cbn [fst snd].
  rewrite (split_scan_word r _ Hr).
  change (String tab EmptyString +:+ m +:+ nl) with (String tab (m +:+ nl)).
  cbn [split_scan]. rewrite (split_scan_word m _ Hm).
  change (is_space tab) with true. cbv iota beta.
  assert (Hnl : split_scan nl = (EmptyString, [])) by reflexivity.
  rewrite Hnl. cbn [fst snd].
  assert (Happ : forall s : string, s +:+ EmptyString = s).
  { intros s. induction s as [|c s IH]; [done|].
    change (String c s +:+ EmptyString) with (String c (s +:+ EmptyString)).
    by rewrite IH. }
  rewrite !Happ.
  destruct m as [|cm m]; [done|]. destruct r as [|cr r]; [done|]. done.
Qed.

(** ** The loaded dictionaries *)

Lemma set_fresh {K V} `{EqDecision K} (k : K) (v : V) (d : PyDict.t K V) :
  k ∉ PyDict.keys d -> PyDict.set k v d = d ++ [(k, v)].
Proof.
  induction d as [|[k' v'] d IH]; [done|].
  unfold PyDict.keys. cbn [map fst PyDict.set]. intros Hk.
  rewrite decide_False by (intros ->; apply Hk; left).
  cbn [app]. rewrite IH; [done|]. intros Hin. apply Hk. by right.
Qed.

Lemma set_Forall {K V} `{EqDecision K} (P : K * V -> Prop) k v
    (d : PyDict.t K V) :
  Forall P d -> P (k, v) -> Forall P (PyDict.set k v d).
Proof.
  intros Hd Hkv. induction Hd as [|[k' v'] d Hp Hd IH]; cbn [PyDict.set].
  - by constructor.
  - case_decide as Hk; [subst; by constructor | by constructor].
Qed.

Lemma find_elem_of_NoDup {K V} `{EqDecision K} (k : K) (v : V)
    (d : PyDict.t K V) :
  NoDup (PyDict.keys d) -> (k, v) ∈ d -> PyDict.find k d = Some v.
Proof.
  induction d as [|[k' v'] d IH]; [by intros _ ?%elem_of_nil|].
  unfold PyDict.keys. cbn [map fst PyDict.find].
  intros [Hk' Hnd]%NoDup_cons [[= -> ->]|Hin]%elem_of_cons.
  - by rewrite decide_True.
  - rewrite decide_False; [by apply IH|]. intros ->. apply Hk'.
    apply list_elem_of_fmap. by exists (k', v).
Qed.

(** X2.  Every key and every value of a loaded table is a non-empty
    string without whitespace. *)
Theorem loaded_entries_are_words lines d :
  load_table lines = Ok d ->
  Forall (fun entry => word entry.1 /\ word entry.2) d.
Proof.
  unfold load_table.
  assert (Hgen : forall (d0 : assignment),
             Forall (fun entry => word entry.1 /\ word entry.2) d0 ->
             load_lines lines d0 = Ok d ->
             Forall (fun entry => word entry.1 /\ word entry.2) d).
  { induction lines as [|ln lines IH]; intros d0 Hd0; cbn [load_lines].
    - by intros [= <-].
    - rewrite load_line_cases. pose proof (tokens_words ln) as Hw.
      destruct (tokens ln) as [|rep [|member extra]]; simpl;
        [by apply IH | done |].
      apply IH. apply set_Forall; [done|].
      apply Forall_cons in Hw as [Hrep Hw].
      apply Forall_cons in Hw as [Hmem _]. by split. }
  apply Hgen. constructor.
Qed.

Lemma loaded_entries_are_words_witness :
  load_table (map tsv_line (mock_tables 99))
    = Ok [("id_01", "id_01"); ("id_02", "id_01"); ("id_03", "id_03");
          ("id_04", "id_04"); ("id_05", "id_05")] /\
  Forall (fun entry : string * string => word entry.1 /\ word entry.2)
    [("id_01", "id_01"); ("id_02", "id_01"); ("id_03", "id_03");
     ("id_04", "id_04"); ("id_05", "id_05")].
Proof.
  split; [vm_compute; reflexivity|].
  apply (loaded_entries_are_words (map tsv_line (mock_tables 99))).
  vm_compute. reflexivity.
Defined.

Lemma load_lines_keys_fold lines (d d' : assignment) :
  load_lines lines d = Ok d' ->
  PyDict.keys d' =
  fold_left (fun acc x => if decide (x ∈ acc) then acc else acc ++ [x])
    (members lines) (PyDict.keys d).
Proof.
  revert d. induction lines as [|ln lines IH]; intros d; cbn [load_lines].
  - by intros [= <-].
  - rewrite load_line_cases. unfold members, line_member in *.
    cbn [omap list_omap].
    destruct (tokens ln) as [|rep [|member extra]]; simpl;
      [apply IH | done |].
    intros Hl. rewrite (IH _ Hl). by rewrite PyDictFacts.keys_set.
Qed.

(** X3.  The keys of a loaded table are the members of the table, each
    once, in the order of their first lines. *)
Theorem load_table_keys lines d :
  load_table lines = Ok d ->
  PyDict.keys d = dedup_first (members lines) /\ NoDup (PyDict.keys d).
Proof.
  unfold load_table. intros Hl. split.
  - by rewrite (load_lines_keys_fold _ _ _ Hl).
  - eapply load_lines_NoDup; [|exact Hl]. constructor.
Qed.

Lemma load_table_keys_witness :
  let lines := ["r1 b"; "r2 a"; "r3 b"; ""; "r4 c x"] in
  load_table lines = Ok [("b", "r3"); ("a", "r2"); ("c", "r4")] /\
  PyDict.keys [("b", "r3"); ("a", "r2"); ("c", "r4")]
    = dedup_first (members lines) /\
  NoDup (PyDict.keys ([("b", "r3"); ("a", "r2"); ("c", "r4")] : assignment)).
Proof.
  intros lines. split; [vm_compute; reflexivity|].
  apply (load_table_keys lines). vm_compute. reflexivity.
Defined.

Lemma load_lines_tsv recs (d : assignment) :
  Forall (fun rec => word rec.1 /\ word rec.2) recs ->
  NoDup (PyDict.keys d ++ map snd recs) ->
  load_lines (map tsv_line recs) d
    = Ok (d ++ map (fun rec => (rec.2, rec.1)) recs).
Proof.
  intros Hw. revert d. induction Hw as [|[r m] recs [Hr Hm] _ IH]; intros d.
  - intros _. cbn. by rewrite app_nil_r.
  - cbn [map load_lines fst snd]. intros Hnd.
    rewrite load_line_cases, (tokens_tsv_line r m Hr Hm). simpl.
    assert (Hfresh : m ∉ PyDict.keys d).
    { apply NoDup_app in Hnd as (_ & Hd & _). intros Hin.
      apply (Hd _ Hin). left. }
    rewrite (set_fresh _ _ _ Hfresh), IH.
    + by rewrite <- app_assoc.
    + unfold PyDict.keys. rewrite map_app. cbn [map fst].
      by rewrite <- app_assoc.
Qed.

(** X4.  A table of records with distinct members loads into exactly the
    dictionary of its records: member to representative, in table order. *)
Theorem load_tsv_round_trip recs :
  Forall (fun rec => word rec.1 /\ word rec.2) recs ->
  NoDup (map snd recs) ->
  load_table (map tsv_line recs) = Ok (map (fun rec => (rec.2, rec.1)) recs).
Proof.
  intros Hw Hnd. unfold load_table. by rewrite load_lines_tsv.
Qed.

Lemma word_decide s : bool_decide (s ≠ EmptyString) && no_space s = true -> word s.
Proof.
  intros [H0 Hs]%andb_true_iff. split; [by apply bool_decide_eq_true in H0 | done].
Qed.

Lemma records_words_decide (recs : list (string * string)) :
  forallb (fun rec => bool_decide (rec.1 ≠ EmptyString) && no_space rec.1
                      && (bool_decide (rec.2 ≠ EmptyString) && no_space rec.2))
    recs = true ->
  Forall (fun rec => word rec.1 /\ word rec.2) recs.
Proof.
  rewrite forallb_forall, Forall_forall. intros Hall rec Hin.
  apply list_elem_of_In, Hall in Hin. apply andb_true_iff in Hin as [H1 H2].
  split; by apply word_decide.
Qed.

Lemma load_tsv_round_trip_witness :
  (Forall (fun rec => word rec.1 /\ word rec.2) (mock_tables 99) /\
   NoDup (map snd (mock_tables 99))) /\
  load_table (map tsv_line (mock_tables 99))
    = Ok (map (fun rec => (rec.2, rec.1)) (mock_tables 99)).
Proof.
  assert (Hw : Forall (fun rec => word rec.1 /\ word rec.2) (mock_tables 99))
    by (apply records_words_decide; vm_compute; reflexivity).
  assert (Hnd : NoDup (map snd (mock_tables 99)))
    by (by apply (bool_decide_unpack (NoDup _))).
  split; [by split|].
  apply (load_tsv_round_trip (mock_tables 99) Hw Hnd).
Defined.

Lemma load_levels_keys fs levels cds0 cds :
  load_levels fs levels cds0 = Ok cds ->
  NoDup (PyDict.keys cds0 ++ levels) ->
  PyDict.keys cds = PyDict.keys cds0 ++ levels.
Proof.
  revert cds0. induction levels as [|t levels IH]; intros cds0;
    cbn [load_levels].
  - intros [= <-] _. by rewrite app_nil_r.
  - destruct (open fs (tsv_path t)) as [lines|]; [|done]. simpl.
    destruct (load_table lines) as [d|]; [|done]. simpl.
    intros Hl Hnd.
    assert (Hfresh : t ∉ PyDict.keys cds0).
    { apply NoDup_app in Hnd as (_ & Hd & _). intros Hin.
      apply (Hd _ Hin). left. }
    assert (Hkeys : PyDict.keys (PyDict.set t d cds0)
                    = PyDict.keys cds0 ++ [t]).
    { by rewrite PyDictFacts.keys_set, decide_False. }
    rewrite (IH _ Hl); rewrite Hkeys, <- app_assoc; done.
Qed.

Lemma load_levels_raise fs levels cds0 e :
  load_levels fs levels cds0 = Raise e ->
  exists pre t post,
    levels = pre ++ t :: post /\
    Forall (fun t' => exists lines d, fs (tsv_path t') = Some lines /\
                                      load_table lines = Ok d) pre /\
    (fs (tsv_path t) = None /\ e = FileNotFoundError (tsv_path t) \/
     exists lines, fs (tsv_path t) = Some lines /\
                   load_table lines = Raise IndexError /\ e = IndexError).
Proof.
  revert cds0. induction levels as [|t levels IH]; intros cds0;
    cbn [load_levels]; [done|].
  unfold open. destruct (fs (tsv_path t)) as [lines|] eqn:Hfs; simpl.
  - destruct (load_table lines) as [d|e'] eqn:Hd; simpl.
    + intros (pre & t' & post & -> & Hpre & Hfail)%IH.
      exists (t :: pre), t', post. split_and!; [done | | done].
      constructor; [by exists lines, d | done].
    + intros [= <-]. exists [], t, levels. split_and!; [done | constructor |].
      right. exists lines. unfold load_table in Hd.
      apply load_lines_raise in Hd as Hd'. destruct Hd' as [-> _].
      by split_and!.
  - intros [= <-]. exists [], t, levels.
    split_and!; [done | constructor | by left].
Qed.

(** X5.  [cluster_dicts] holds one dictionary per threshold, in threshold
    order, when every table exists and loads; otherwise the loop stops at
    the first threshold whose file is missing ([FileNotFoundError]) or has a
    one-token line ([IndexError]), the tables before it having loaded. *)
Theorem load_cluster_dicts_outcome fs :
  match load_cluster_dicts fs with
  | Ok cds =>
      PyDict.keys cds = thresholds /\
      forall t, t ∈ thresholds ->
        exists lines d, fs (tsv_path t) = Some lines /\
                        load_table lines = Ok d /\
                        PyDict.find t cds = Some d
  | Raise e =>
      exists pre t post,
        thresholds = pre ++ t :: post /\
        Forall (fun t' => exists lines d, fs (tsv_path t') = Some lines /\
                                          load_table lines = Ok d) pre /\
        (fs (tsv_path t) = None /\ e = FileNotFoundError (tsv_path t) \/
         exists lines, fs (tsv_path t) = Some lines /\
                       load_table lines = Raise IndexError /\ e = IndexError)
  end.
Proof.
  destruct (load_cluster_dicts fs) as [cds|e] eqn:Hl.
  - split.
    + apply load_levels_keys in Hl; [done|]. apply thresholds_NoDup.
    + intros t Ht. by apply load_cluster_dicts_find.
  - by apply load_levels_raise in Hl.
Qed.

Example missing_table_stops_the_load :
  load_cluster_dicts
    (fun path => if decide (path = tsv_path 96) then None else mock_fs path)
  = Raise (FileNotFoundError "./data/antiref/tsv/antiref96.tsv").
Proof. vm_compute. reflexivity. Qed.

(** ** More on the manifest *)

Lemma getitem_set_ne {K V} `{EqDecision K} inj (k k' : K) (v : V)
    (d : PyDict.t K V) :
  k ≠ k' ->
  PyDict.getitem inj (PyDict.set k v d) k' = PyDict.getitem inj d k'.
Proof.
  intros Hne. unfold PyDict.getitem. by rewrite PyDictFacts.find_set_ne.
Qed.

Lemma resolve_set_other cds t d levels x :
  t ∉ levels ->
  resolve (PyDict.set t d cds) levels x = resolve cds levels x.
Proof.
  revert x. induction levels as [|t' levels IH]; intros x Ht; [done|].
  rewrite !resolve_cons. rewrite getitem_set_ne.
  - destruct (PyDict.getitem KInt cds t') as [d'|]; [|done]. simpl.
    destruct (PyDict.getitem KStr d' x) as [nxt|]; [|done]. simpl.
    rewrite IH; [done|]. intros Hin. apply Ht. by right.
  - intros ->. apply Ht. left.
Qed.

Lemma write_rows_ext cds cds' names f :
  (forall x, manifest_row cds x = manifest_row cds' x) ->
  write_rows cds names f = write_rows cds' names f.
Proof.
  intros Hext. revert f. induction names as [|x names IH]; intros f; [done|].
  cbn [write_rows]. rewrite <- Hext.
  destruct (manifest_row cds x); [apply IH | done].
Qed.

(** X6.  The manifest does not depend on the dictionary of level 100:
    whatever is stored under 100, the same file is written and the same
    outcome returned. *)
Theorem manifest_ignores_level_100 cds d100 :
  write_manifest (PyDict.set 100%nat d100 cds) = write_manifest cds.
Proof.
  assert (Hrow : forall x,
             manifest_row (PyDict.set 100%nat d100 cds) x = manifest_row cds x).
  { intros x. rewrite !manifest_row_resolve, resolve_set_other; [done|].
    by apply (bool_decide_unpack (_ ∉ _)). }
  unfold write_manifest. rewrite getitem_set_ne by done.
  destruct (PyDict.getitem KInt cds 99%nat) as [d99|]; [|done].
  by apply write_rows_ext.
Qed.

(** X7.  The six hand-written lookups of the row loop are the chain
    resolution over the thresholds below the first, in their order: same
    row on success, same exception on failure. *)
Theorem manifest_row_is_chain cds c100 :
  manifest_row cds c100 =
  row ← resolve cds (tail thresholds) c100; Ok (c100 :: row).
Proof.
  unfold manifest_row, thresholds. simpl.
  repeat (match goal with
          | |- context [PyDict.getitem ?i ?d ?k] =>
              destruct (PyDict.getitem i d k); simpl; try done
          end).
Qed.

(** ** From the tables to the manifest *)

Lemma members_tsv recs :
  Forall (fun rec => word rec.1 /\ word rec.2) recs ->
  members (map tsv_line recs) = map snd recs.
Proof.
  induction 1 as [|[r m] recs [Hr Hm] _ IH]; [done|].
  unfold members, line_member in *. cbn [map omap list_omap].
  rewrite (tokens_tsv_line r m Hr Hm). simpl. by rewrite IH.
Qed.

Lemma loadable_tsv recs :
  Forall (fun rec => word rec.1 /\ word rec.2) recs ->
  Forall loadable (map tsv_line recs).
Proof.
  induction 1 as [|[r m] recs [Hr Hm] _ IH]; [constructor|].
  cbn [map]. constructor; [|done].
  unfold loadable. by rewrite (tokens_tsv_line r m Hr Hm).
Qed.

Lemma elem_of_dedup_fold (x : string) l acc :
  x ∈ fold_left (fun acc x => if decide (x ∈ acc) then acc else acc ++ [x])
        l acc
  <-> x ∈ acc \/ x ∈ l.
Proof.
  revert acc. induction l as [|y l IH]; intros acc; cbn [fold_left].
  - rewrite elem_of_nil. tauto.
  - rewrite IH, elem_of_cons. case_decide as Hy.
    + split; [tauto|]. intros [?|[->|?]]; tauto.
    + rewrite elem_of_app, list_elem_of_singleton. tauto.
Qed.

Lemma elem_of_dedup_first x l : x ∈ dedup_first l <-> x ∈ l.
Proof.
  unfold dedup_first. rewrite elem_of_dedup_fold, elem_of_nil. tauto.
Qed.

Lemma tables_fs_lookup tsv t :
  t ∈ thresholds -> tables_fs tsv (tsv_path t) = Some (map tsv_line (tsv t)).
Proof. intros Ht. each_threshold Ht; reflexivity. Qed.

Lemma load_levels_ok fs levels cds0 :
  (forall t, t ∈ levels ->
     exists lines, fs (tsv_path t) = Some lines /\ Forall loadable lines) ->
  exists cds, load_levels fs levels cds0 = Ok cds.
Proof.
  revert cds0. induction levels as [|t levels IH]; intros cds0 Hall.
  - by exists cds0.
  - destruct (Hall t) as (lines & Hfs & Hload); [left|].
    cbn [load_levels]. unfold open. rewrite Hfs. simpl.
    destruct (load_lines_ok lines PyDict.empty Hload) as [d Hd].
    unfold load_table. rewrite Hd. simpl. apply IH.
    intros t' Ht'. apply Hall. by right.
Qed.

Lemma loaded_keys recs d :
  Forall (fun rec => word rec.1 /\ word rec.2) recs ->
  load_table (map tsv_line recs) = Ok d ->
  forall k, k ∈ PyDict.keys d <-> k ∈ map snd recs.
Proof.
  intros Hw Hd k. unfold load_table in Hd.
  rewrite (load_lines_keys_fold _ _ _ Hd), (members_tsv _ Hw).
  rewrite elem_of_dedup_fold. unfold PyDict.keys. simpl.
  rewrite elem_of_nil. tauto.
Qed.

Lemma loaded_values recs d :
  Forall (fun rec => word rec.1 /\ word rec.2) recs ->
  load_table (map tsv_line recs) = Ok d ->
  forall v, v ∈ PyDict.values d -> v ∈ map fst recs.
Proof.
  intros Hw Hd v [[k v'] [-> Hin]]%list_elem_of_fmap. simpl.
  assert (Hnd : NoDup (PyDict.keys d)).
  { eapply load_lines_NoDup; [|exact Hd]. constructor. }
  apply (find_elem_of_NoDup _ _ _ Hnd) in Hin.
  destruct (load_lines_entry _ _ _ _ _ Hd Hin)
    as [?|(ln & extra & Hln & Htok)]; [done|].
  apply list_elem_of_fmap in Hln as [[r m] [-> Hrec]].
  rewrite Forall_forall in Hw. destruct (Hw _ Hrec) as [Hr Hm].
  rewrite (tokens_tsv_line r m Hr Hm) in Htok. injection Htok as <- <- <-.
  apply list_elem_of_fmap. by exists (r, m).
Qed.

(** Under the parent and child relation the manifest is written to the
    end, one row per seed. *)
Lemma write_manifest_closed cds d99 :
  PyDict.find 99%nat cds = Some d99 ->
  chain_closed cds ->
  exists rows,
    write_manifest cds = (csv_line header :: map csv_line rows, Ok tt) /\
    Forall2 (fun id row => manifest_row cds id = Ok row) (PyDict.keys d99)
      rows.
Proof.
  intros Hd99 Hcl. unfold write_manifest.
  rewrite (getitem_Some _ _ _ _ Hd99). cbn beta iota zeta.
  destruct (write_rows_spec cds (PyDict.keys d99) [csv_line header])
    as (written & pending & rows & Hsplit & Hrows & Hf & Hres).
  destruct Hres as [[Hres ->]|(x & rest & e & -> & Hrow & _)].
  - rewrite app_nil_r in Hsplit. subst written. exists rows.
    split; [|done].
    destruct (write_rows cds (PyDict.keys d99) [csv_line header]) as [f r].
    simpl in Hf, Hres. by subst.
  - exfalso. rewrite manifest_row_resolve in Hrow.
    destruct (resolve_closed cds 99%nat (tail coarser_levels) d99 x)
      as [row Hrow']; [exact Hcl | done | |].
    + rewrite Hsplit. apply elem_of_app. right. left.
    + change (99%nat :: tail coarser_levels) with coarser_levels in Hrow'.
      by rewrite Hrow' in Hrow.
Qed.

Lemma tables_words_Forall tsv t :
  tables_words tsv -> t ∈ thresholds ->
  Forall (fun rec => word rec.1 /\ word rec.2) (tsv t).
Proof.
  intros Hw Ht. apply Forall_forall. intros [r m] Hin. by apply (Hw t).
Qed.

Lemma closed_step tsv cds i a b :
  tables_words tsv -> parent_invariant tsv ->
  load_cluster_dicts (tables_fs tsv) = Ok cds ->
  thresholds !! i = Some a -> thresholds !! S i = Some b ->
  forall da, PyDict.find a cds = Some da ->
    exists db, PyDict.find b cds = Some db /\
               forall v, v ∈ PyDict.values da -> v ∈ PyDict.keys db.
Proof.
  intros Hw Hinv Hload Ha Hb da Hda.
  assert (Hina : a ∈ thresholds) by (by eapply list_elem_of_lookup_2).
  assert (Hinb : b ∈ thresholds) by (by eapply list_elem_of_lookup_2).
  destruct (load_cluster_dicts_find _ _ _ Hload Hina)
    as (la & da' & Hfa & Hla & Hda').
  destruct (load_cluster_dicts_find _ _ _ Hload Hinb)
    as (lb & db & Hfb & Hlb & Hdb).
  rewrite Hda in Hda'. injection Hda' as <-.
  rewrite tables_fs_lookup in Hfa, Hfb by done.
  injection Hfa as <-. injection Hfb as <-.
  exists db. split; [done|]. intros v Hv.
  apply (loaded_keys _ _ (tables_words_Forall _ _ Hw Hinb) Hlb).
  apply (Hinv i a b Ha Hb).
  by apply (loaded_values _ _ (tables_words_Forall _ _ Hw Hina) Hla).
Qed.

(** X8.  Tables of well-formed records in which each level's members are
    the representatives of the level before always load, and the manifest
    is then written to the end: one row per distinct member of the table of
    level 99, in the order of their first lines. *)
Theorem tables_manifest_complete tsv :
  tables_words tsv ->
  parent_invariant tsv ->
  exists cds rows,
    load_cluster_dicts (tables_fs tsv) = Ok cds /\
    write_manifest cds = (csv_line header :: map csv_line rows, Ok tt) /\
    Forall2 (fun id row => manifest_row cds id = Ok row)
      (dedup_first (map snd (tsv 99))) rows.
Proof.
  intros Hw Hinv.
  destruct (load_levels_ok (tables_fs tsv) thresholds PyDict.empty)
    as [cds Hload].
  { intros t Ht. exists (map tsv_line (tsv t)).
    split; [by apply tables_fs_lookup|].
    by apply loadable_tsv, tables_words_Forall. }
  assert (H99 : 99%nat ∈ thresholds) by (right; left).
  destruct (load_cluster_dicts_find _ _ _ Hload H99)
    as (l99 & d99 & Hf99 & Hl99 & Hd99).
  rewrite tables_fs_lookup in Hf99 by done. injection Hf99 as <-.
  assert (Hcl : chain_closed cds).
  { unfold chain_closed, coarser_levels, thresholds.
    cbn [tail chain_closed_on]. split_and!; [| | | | |done].
    - by apply (closed_step tsv cds 1 99 98).
    - by apply (closed_step tsv cds 2 98 96).
    - by apply (closed_step tsv cds 3 96 94).
    - by apply (closed_step tsv cds 4 94 92).
    - by apply (closed_step tsv cds 5 92 90). }
  destruct (write_manifest_closed cds d99 Hd99 Hcl) as (rows & Hrun & Hrows).
  exists cds, rows. split_and!; [done..|].
  unfold load_table in Hl99.
  rewrite (load_lines_keys_fold _ _ _ Hl99), members_tsv in Hrows;
    [exact Hrows|].
  by apply tables_words_Forall.
Qed.

Lemma mock_tables_words : tables_words mock_tables.
Proof.
  intros t r m Ht Hin.
  assert (Hall : Forall (fun rec => word rec.1 /\ word rec.2) (mock_tables t)).
  { apply records_words_decide. each_threshold Ht; vm_compute; reflexivity. }
  rewrite Forall_forall in Hall. apply (Hall (r, m) Hin).
Qed.

Lemma tables_manifest_complete_witness :
  (tables_words mock_tables /\ parent_invariant mock_tables) /\
  exists cds rows,
    load_cluster_dicts (tables_fs mock_tables) = Ok cds /\
    write_manifest cds = (csv_line header :: map csv_line rows, Ok tt) /\
    Forall2 (fun id row => manifest_row cds id = Ok row)
      (dedup_first (map snd (mock_tables 99))) rows.
Proof.
  split; [split; [exact mock_tables_words | exact mock_tables_invariant]|].
  apply (tables_manifest_complete mock_tables);
    [exact mock_tables_words | exact mock_tables_invariant].
Defined.

Lemma word_field_ok s : no_space s = true -> field_ok s = true.
Proof.
  induction s as [|c s IH]; [done|]. cbn [no_space field_ok].
  intros [Hc Hs]%andb_true_iff. rewrite (IH Hs), andb_true_r.
  apply negb_true_iff in Hc.
  destruct (bool_decide (c = tab)) eqn:Ht.
  { apply bool_decide_eq_true in Ht. by subst. }
  destruct (bool_decide (c = lf)) eqn:Hl; [|done].
  apply bool_decide_eq_true in Hl. by subst.
Qed.

(** X9.  For a table of well-formed records with distinct members, the
    number of lines of the size summary is the number of distinct values of
    the dictionary loaded from the same table. *)
Theorem size_summary_matches_index recs :
  Forall (fun rec => word rec.1 /\ word rec.2) recs ->
  NoDup (map snd recs) ->
  exists d,
    load_table (map tsv_line recs) = Ok d /\
    cluster_count (map tsv_line recs)
      = length (remove_dups (PyDict.values d)).
Proof.
  intros Hw Hnd. exists (map (fun rec => (rec.2, rec.1)) recs).
  split; [unfold load_table; by rewrite load_lines_tsv|].
  unfold cluster_count, cluster_sizes. rewrite uniq_c_sort_length.
  do 2 f_equal. unfold PyDict.values. rewrite !map_map.
  apply map_ext_in. intros [r m] Hin. simpl.
  apply cut_f1_tsv_line, word_field_ok.
  rewrite Forall_forall in Hw. apply list_elem_of_In in Hin.
  by destruct (Hw _ Hin) as [[_ ?] _].
Qed.

Lemma size_summary_matches_index_witness :
  (Forall (fun rec => word rec.1 /\ word rec.2) (mock_tables 99) /\
   NoDup (map snd (mock_tables 99))) /\
  exists d,
    load_table (map tsv_line (mock_tables 99)) = Ok d /\
    cluster_count (map tsv_line (mock_tables 99))
      = length (remove_dups (PyDict.values d)).
Proof.
  assert (Hw : Forall (fun rec => word rec.1 /\ word rec.2) (mock_tables 99))
    by (apply records_words_decide; vm_compute; reflexivity).
  assert (Hnd : NoDup (map snd (mock_tables 99)))
    by (by apply (bool_decide_unpack (NoDup _))).
  split; [by split|].
  apply (size_summary_matches_index (mock_tables 99) Hw Hnd).
Defined.

(** ** The size summary *)

Lemma uniq_c_sum l : sum_list (map fst (uniq_c l)) = length l.
Proof.
  induction l as [|x l IH]; [done|]. cbn [uniq_c length]. rewrite <- IH.
  destruct (uniq_c l) as [|[n y] r]; [done|].
  case_decide; simpl; lia.
Qed.

Lemma uniq_c_counts l :
  StronglySorted (fun x y : string => is_true (String.leb x y)) l ->
  forall n r, (n, r) ∈ uniq_c l ->
    0 < n /\ n = count_occ String.string_dec l r.
Proof.
  intros Hs. induction Hs as [|x l Hs IH Hall]; [by intros n r ?%elem_of_nil|].
  assert (Hnd : NoDup (map snd (uniq_c (x :: l))))
    by (apply uniq_c_NoDup; by constructor).
  pose proof (fun y => uniq_c_elem y l) as Hel.
  cbn [uniq_c] in *. destruct (uniq_c l) as [|[k y] rest] eqn:Hu.
  - intros n r [= -> ->]%list_elem_of_singleton.
    assert (Hx : ~ In x l).
    { intros Hin%list_elem_of_In. apply Hel in Hin.
      by apply elem_of_nil in Hin. }
    rewrite count_occ_cons_eq by done.
    apply (count_occ_not_In String.string_dec) in Hx. rewrite Hx. lia.
  - case_decide as Hxy.
    + subst y. cbn [map snd] in Hnd. apply NoDup_cons in Hnd as [Hx Hnd].
      intros n r [[= -> ->]|Hin]%elem_of_cons.
      * rewrite count_occ_cons_eq by done.
        destruct (IH k x) as [_ <-]; [left | lia].
      * destruct (IH n r) as [Hn Hc]; [by right|]. split; [done|].
        rewrite count_occ_cons_neq; [done|]. intros ->. apply Hx.
        apply list_elem_of_fmap. by exists (n, r).
    + cbn [map snd] in Hnd. apply NoDup_cons in Hnd as [Hx Hnd].
      intros n r [[= -> ->]|Hin]%elem_of_cons.
      * rewrite count_occ_cons_eq by done.
        assert (Hx' : ~ In x l).
        { intros Hin%list_elem_of_In. by apply Hel in Hin. }
        apply (count_occ_not_In String.string_dec) in Hx'. rewrite Hx'. lia.
      * destruct (IH n r Hin) as [Hn Hc]. split; [done|].
        rewrite count_occ_cons_neq; [done|]. intros ->. apply Hx.
        change (r ∈ map snd ((k, y) :: rest)).
        apply list_elem_of_fmap. by exists (n, r).
Qed.

(** X10.  The size summary has one line per distinct representative; the
    count on a line is the number of records of that representative, never
    zero; every record's representative has a line; and the counts add up
    to the number of records. *)
Theorem cluster_sizes_spec table :
  NoDup (map snd (cluster_sizes table)) /\
  (forall n r, (n, r) ∈ cluster_sizes table ->
     0 < n /\ n = count_occ String.string_dec (map cut_f1 table) r) /\
  (forall ln, ln ∈ table -> cut_f1 ln ∈ map snd (cluster_sizes table)) /\
  sum_list (map fst (cluster_sizes table)) = length table.
Proof.
  unfold cluster_sizes.
  pose proof (StringSort.StronglySorted_sort (map cut_f1 table)
                string_leb_trans) as Hs.
  pose proof (StringSort.Permuted_sort (map cut_f1 table)) as Hp.
  split_and!.
  - by apply uniq_c_NoDup.
  - intros n r Hin. destruct (uniq_c_counts _ Hs n r Hin) as [Hn ->].
    split; [done|]. symmetry. clear Hin Hn.
    revert r. by apply Permutation_count_occ.
  - intros ln Hin. apply uniq_c_elem. rewrite <- Hp.
    apply list_elem_of_fmap. by exists ln.
  - rewrite uniq_c_sum, <- Hp. apply length_map.
Qed.

Example mock_cluster_sizes :
  cluster_sizes (map tsv_line (mock_tables 90))
  = [(2, "id_03"); (1, "id_04"); (1, "id_05")].
Proof. vm_compute. reflexivity. Qed.

(** ** More on the efficiency cell *)

Lemma eff_loop_outcome abspath wc_l (b : Z) levels acc :
  wc_l (size_path abspath 100) = Ok b -> b ≠ 0%Z ->
  match eff_loop abspath wc_l levels (Some b) acc with
  | Ok out =>
      exists recs,
        out = acc ++ recs /\
        map clustering_identity recs = levels /\
        Forall (fun r =>
                  wc_l (size_path abspath (clustering_identity r))
                    = Ok (clusters r) /\
                  efficiency r = (inject_Z (clusters r) / inject_Z b)%Q)
          recs
  | Raise e =>
      exists pre t post,
        levels = pre ++ t :: post /\
        Forall (fun t' => exists c, wc_l (size_path abspath t') = Ok c) pre /\
        wc_l (size_path abspath t) = Raise e
  end.
Proof.
  intros Hb Hb0. revert acc. induction levels as [|t levels IH]; intros acc.
  - cbn [eff_loop]. exists []. by rewrite app_nil_r.
  - cbn [eff_loop]. destruct (wc_l (size_path abspath t)) as [c|e] eqn:Hc.
    + simpl.
      assert (Hst : (if decide (t = 100%nat) then Some c else Some b)
                    = Some b).
      { case_decide as Ht; [|done]. subst t. congruence. }
      rewrite Hst. unfold truediv. rewrite decide_False by done. simpl.
      specialize (IH (acc ++ [ {| clustering_identity := t;
                                  clusters := c;
                                  efficiency :=
                                    (inject_Z c / inject_Z b)%Q |} ])).
      destruct (eff_loop abspath wc_l levels (Some b) _) as [out|e].
      * destruct IH as (recs & -> & Hids & Hrecs).
        eexists (_ :: recs). split_and!.
        -- by rewrite <- app_assoc.
        -- simpl. by rewrite Hids.
        -- constructor; [by split | done].
      * destruct IH as (pre & t' & post & -> & Hpre & Hfail).
        exists (t :: pre), t', post. split_and!; [done | | done].
        constructor; [by exists c | done].
    + simpl. exists [], t, levels. by split_and!.
Qed.


Example zero_baseline :
  efficiencies work_abspath (fun _ => Ok 0%Z) = Raise ZeroDivisionError.
Proof. vm_compute. reflexivity. Qed.

(** X12.  The baseline has to come first: whatever the list of levels,
    the loop started without a baseline can only succeed on a list that
    begins with 100; beginning with any other level it raises (a
    [TypeError] from the division when the level's count reads). *)
Theorem baseline_must_come_first abspath wc_l t rest acc :
  t ≠ 100%nat ->
  (forall out, eff_loop abspath wc_l (t :: rest) None acc ≠ Ok out) /\
  (forall c, wc_l (size_path abspath t) = Ok c ->
     eff_loop abspath wc_l (t :: rest) None acc = Raise TypeError).
Proof.
  intros Ht. cbn [eff_loop]. split.
  - intros out. destruct (wc_l (size_path abspath t)) as [c|e]; [|done].
    simpl. by rewrite decide_False.
  - intros c ->. simpl. by rewrite decide_False.
Qed.

Lemma baseline_must_come_first_witness :
  99%nat ≠ 100%nat /\
  (forall out,
     eff_loop work_abspath steady_wc [99; 100]%nat None [] ≠ Ok out) /\
  (forall c, steady_wc (size_path work_abspath 99) = Ok c ->
     eff_loop work_abspath steady_wc [99; 100]%nat None [] = Raise TypeError).
Proof.
  split; [lia|].
  apply (baseline_must_come_first work_abspath steady_wc 99 [100%nat] []).
  lia.
Defined.

(** X13.  With a positive baseline the ratios follow the counts: of two
    records of one run, the one with no more clusters has no greater
    efficiency, so counts that never grow give ratios that never grow. *)
Theorem efficiency_monotone abspath wc_l recs (b : Z) r1 r2 :
  efficiencies abspath wc_l = Ok recs ->
  wc_l (size_path abspath 100) = Ok b ->
  (0 < b)%Z ->
  r1 ∈ recs -> r2 ∈ recs ->
  (clusters r1 <= clusters r2)%Z ->
  (efficiency r1 <= efficiency r2)%Q.
Proof.
  intros Hrun Hb Hpos H1 H2 Hle.
  assert (Hb0 : b ≠ 0%Z) by lia.
  pose proof (eff_loop_outcome abspath wc_l b thresholds [] Hb Hb0) as Hout.
  assert (Heq : efficiencies abspath wc_l
                = eff_loop abspath wc_l thresholds (Some b) []).
  { unfold efficiencies, thresholds. cbn [eff_loop]. by rewrite Hb. }
  rewrite <- Heq, Hrun in Hout. destruct Hout as (recs' & -> & _ & Hrecs).
  rewrite Forall_forall in Hrecs.
  destruct (Hrecs _ H1) as [_ ->]. destruct (Hrecs _ H2) as [_ ->].
  assert (Hinv : (0 < / inject_Z b)%Q).
  { apply Qinv_lt_0_compat. change 0%Q with (inject_Z 0).
    rewrite <- Zlt_Qlt. lia. }
  unfold Qdiv. rewrite (Qmult_le_r _ _ _ Hinv). by rewrite <- Zle_Qle.
Qed.

Lemma efficiency_monotone_witness :
  let r100 := {| clustering_identity := 100; clusters := 2;
                 efficiency := (inject_Z 2 / inject_Z 2)%Q |} in
  let r99 := {| clustering_identity := 99; clusters := 3;
                efficiency := (inject_Z 3 / inject_Z 2)%Q |} in
  (skewed_wc (size_path work_abspath 100) = Ok 2%Z /\ (0 < 2)%Z /\
   (clusters r100 <= clusters r99)%Z) /\
  (efficiency r100 <= efficiency r99)%Q.
Proof.
  intros r100 r99.
  split; [split_and!; [vm_compute; reflexivity | lia | simpl; lia]|].
  destruct (efficiencies work_abspath skewed_wc) as [recs|] eqn:Hrun;
    [|vm_compute in Hrun; discriminate].
  apply (efficiency_monotone work_abspath skewed_wc recs 2 r100 r99 Hrun);
    [vm_compute; reflexivity | lia | | | simpl; lia].
  - vm_compute in Hrun. injection Hrun as <-. left.
  - vm_compute in Hrun. injection Hrun as <-. right. left.
Defined.

(** ** More on the pipeline *)

(** X14.  The configuration is wired as a chain: every threshold has a
    parent, the parent of level 100 is the database that [make_mmseqs_db]
    is asked to build, and the parent of every other level is the sequence
    database that the step of the level before it creates. *)
Theorem pipeline_wiring :
  (forall t, t ∈ thresholds -> is_Some (PyDict.find t parent_lookup)) /\
  PyDict.find 100%nat parent_lookup = Some init_db /\
  (forall i a b,
     thresholds !! i = Some a -> thresholds !! S i = Some b ->
     PyDict.find b parent_lookup
       = Some ("./data/antiref/seqdb/antiref" +:+ pretty a)) /\
  PyDict.keys parent_lookup = thresholds.
Proof.
  split_and!; [| reflexivity | | reflexivity].
  - intros t Ht. each_threshold Ht; by eexists.
  - intros i a b Ha Hb.
    pose proof (thresholds_steps _ _ _ Ha Hb) as Hstep.
    each_record Hstep; injection Hstep as -> ->; reflexivity.
Qed.

Lemma linclust_logging abspath isdir out t p tmp debug log :
  linclust (list string) abspath isdir (fun _ w => w) (logging_popen out)
    t p tmp debug log
  = (if debug
     then Some ((out (linclust_cmd t (abspath p) (abspath tmp)) log).1)
     else None,
     log ++ [linclust_cmd t (abspath p) (abspath tmp)]).
Proof.
  unfold linclust.
  assert (Hdirs : forall paths,
             ensure_dirs (list string) isdir (fun _ w => w) paths log = log).
  { intros paths. unfold ensure_dirs.
    induction paths as [|path paths IH]; [done|].
    cbn [fold_left]. by destruct (isdir log (dirname path)). }
  rewrite Hdirs. unfold logging_popen.
  by destruct (out _ log) as [[o e] s].
Qed.

Lemma fold_linclust_logging abspath isdir out pairs log :
  fold_left
    (fun w (tp : nat * string) =>
       (linclust (list string) abspath isdir (fun _ w => w)
          (logging_popen out) tp.1 tp.2 "/tmp" false w).2)
    pairs log
  = log ++ map (fun tp => linclust_cmd tp.1 (abspath tp.2) (abspath "/tmp"))
             pairs.
Proof.
  revert log. induction pairs as [|[t p] pairs IH]; intros log.
  - by rewrite app_nil_r.
  - cbn [fold_left map]. rewrite linclust_logging. cbn [fst snd].
    rewrite IH. by rewrite <- app_assoc.
Qed.

(** X15.  On a machine that records the commands it runs, whatever they
    print or return: [make_mmseqs_db] runs the single [createdb] command on
    the absolute FASTA and database paths when the directory of the database
    exists, and raises [AttributeError] without running anything when it
    does not; the threshold loop then returns normally after running, in
    order, the command of each threshold on the absolute path of its
    parent.  With the directory in place a full run is these eight
    commands. *)
Theorem full_run_commands abspath isdir out log :
  let machine := logging_popen out in
  let built :=
    make_mmseqs_db (list string) abspath isdir machine init_fasta init_db
      false log in
  let run :=
    pipeline (list string) abspath isdir (fun _ w => w) machine built.2 in
  (if isdir log (dirname (abspath init_db))
   then built = (Ok None,
                 log ++ [createdb_cmd (abspath init_fasta) (abspath init_db)])
   else built = (Raise AttributeError, log)) /\
  run.1 = Ok tt /\
  run.2 =
    built.2 ++
    map (fun tp => linclust_cmd tp.1 (abspath tp.2) (abspath "/tmp"))
      parent_lookup.
Proof.
  intros machine built run. split.
  - unfold built, make_mmseqs_db, machine, logging_popen.
    destruct (isdir log (dirname (abspath init_db))); [|done].
    by destruct (out _ log) as [[o e] s].
  - unfold run, pipeline, machine.
    change thresholds with (map fst parent_lookup).
    rewrite run_levels_all by (unfold parent_lookup; repeat constructor).
    split; [done|]. cbn [snd]. by rewrite fold_linclust_logging.
Qed.

Example full_run_with_directory :
  let machine := logging_popen (fun _ _ => ("", "", 1%Z)) in
  let built :=
    make_mmseqs_db (list string) work_abspath (fun _ _ => true) machine
      init_fasta init_db false [] in
  built.1 = Ok None /\
  length (pipeline (list string) work_abspath (fun _ _ => true)
            (fun _ w => w) machine built.2).2 = 8.
Proof. vm_compute. by split. Qed.

Example database_directory_missing :
  make_mmseqs_db (list string) work_abspath (fun _ _ => false)
    (logging_popen (fun _ _ => ("", "", 0%Z))) init_fasta init_db false []
  = (Raise AttributeError, []).
Proof. vm_compute. reflexivity. Qed.

(** X16.  The tool is started only once its output directories exist: on a
    machine where creating a directory makes it exist and keeps the others,
    the state in which [linclust] runs its command has the directory of
    every listed path. *)
Theorem ensure_dirs_all_exist (World : Type) isdir make_dir paths (w : World) :
  (forall d w, isdir (make_dir d w) d = true) ->
  (forall d d' w, isdir w d' = true -> isdir (make_dir d w) d' = true) ->
  Forall (fun path =>
            isdir (ensure_dirs World isdir make_dir paths w) (dirname path)
              = true)
    paths.
Proof.
  intros Hmk Hkeep. unfold ensure_dirs.
  assert (Hpres : forall paths w d,
             isdir w d = true ->
             isdir (fold_left
                      (fun w path =>
                         let d := dirname path in
                         if isdir w d then w else make_dir d w)
                      paths w) d = true).
  { clear paths w. intros paths. induction paths as [|p paths IH];
      intros w d Hd; [done|].
    cbn [fold_left]. apply IH. cbv zeta.
    destruct (isdir w (dirname p)); [done | by apply Hkeep]. }
  revert w. induction paths as [|p paths IH]; intros w; [constructor|].
  cbn [fold_left]. constructor; [|apply IH].
  apply Hpres. cbv zeta.
  destruct (isdir w (dirname p)) eqn:Hd; [done | apply Hmk].
Qed.

Lemma ensure_dirs_all_exist_witness :
  let isdir := fun (w : list string) d => bool_decide (d ∈ w) in
  let make_dir := fun d (w : list string) => d :: w in
  ((forall d w, isdir (make_dir d w) d = true) /\
   (forall d d' w, isdir w d' = true -> isdir (make_dir d w) d' = true)) /\
  Forall (fun path =>
            isdir (ensure_dirs (list string) isdir make_dir
                     ["./data/antiref/clusterdb/antiref99";
                      "./data/antiref/tsv/antiref99.tsv"] [])
              (dirname path) = true)
    ["./data/antiref/clusterdb/antiref99"; "./data/antiref/tsv/antiref99.tsv"].
Proof.
  intros isdir make_dir.
  assert (Hmk : forall d w, isdir (make_dir d w) d = true).
  { intros d w. apply bool_decide_eq_true. left. }
  assert (Hkeep : forall d d' w,
             isdir w d' = true -> isdir (make_dir d w) d' = true).
  { intros d d' w Hd%bool_decide_eq_true. apply bool_decide_eq_true.
    by right. }
  split; [by split|].
  apply (ensure_dirs_all_exist (list string) isdir make_dir _ [] Hmk Hkeep).
Defined.

(** ** The download loop *)

Section DownloadFacts.
Variable World : Type.
Variable abspath : string -> string.
Variable isdir : World -> string -> bool.
Variable make_dir : string -> World -> World.
Variable popen : string -> World -> (string * string * Z) * World.

Lemma lstrip_empty s : lstrip s = EmptyString -> blank s = true.
Proof.
  induction s as [|c s IH]; [done|]. cbn [lstrip blank].
  destruct (is_space c); [exact IH | done].
Qed.

Lemma strip_empty_iff s : strip s = EmptyString <-> tokens s = [].
Proof.
  rewrite tokens_nil_iff. unfold strip. split.
  - intros Hs%lstrip_empty. by apply blank_rstrip.
  - intros Hb%rstrip_empty_iff. by rewrite Hb.
Qed.

Lemma tokens_strip s : tokens (strip s) = tokens s.
Proof. unfold tokens. by rewrite !split_strip. Qed.

Lemma line_commands_strip raw ddir decompress s :
  line_commands raw ddir decompress (strip s)
  = line_commands raw ddir decompress s.
Proof.
  unfold line_commands. by rewrite split_strip.
Qed.

(** One turn of the loop on a line with two tokens: its commands run. *)
Lemma download_lines_step raw ddir decompress line rest w :
  (decompress = true -> is_Some ddir) ->
  length (tokens line) = 2 ->
  download_lines World popen raw ddir decompress (line :: rest) w
  = download_lines World popen raw ddir decompress rest
      (run_commands popen (line_commands raw ddir decompress line) w).
Proof.
  intros Hdir Hlen. cbn [download_lines].
  destruct (strip line) as [|c s] eqn:Hs.
  { apply strip_empty_iff in Hs. by rewrite Hs in Hlen. }
  rewrite <- Hs. fold (tokens line).
  unfold line_commands. rewrite <- (split_strip line). fold (tokens line).
  destruct (tokens line) as [|a [|url [|x l]]]; try done.
  unfold run_commands.
  destruct (popen (wget_cmd (path_join raw (basename url)) url) w)
    as [r1 w1] eqn:H1.
  destruct decompress.
  - destruct (Hdir eq_refl) as [dir ->]. cbn [fold_left]. rewrite H1.
    cbn [snd]. by destruct (popen _ w1).
  - cbn [fold_left]. by rewrite H1.
Qed.

Lemma download_lines_skip raw ddir decompress line rest w :
  tokens line = [] ->
  download_lines World popen raw ddir decompress (line :: rest) w
  = download_lines World popen raw ddir decompress rest w.
Proof.
  intros Ht%strip_empty_iff. cbn [download_lines]. by rewrite Ht.
Qed.

Lemma download_lines_bad raw ddir decompress line rest w :
  tokens line ≠ [] -> length (tokens line) ≠ 2 ->
  download_lines World popen raw ddir decompress (line :: rest) w
  = (Raise ValueError, w).
Proof.
  intros Hne Hlen. cbn [download_lines].
  destruct (strip line) as [|c s] eqn:Hs.
  { by apply strip_empty_iff in Hs. }
  rewrite <- Hs. fold (tokens line).
  by destruct (tokens line) as [|a [|url [|x l]]].
Qed.

Lemma line_commands_nil raw ddir decompress line :
  tokens line = [] -> line_commands raw ddir decompress line = [].
Proof.
  intros Ht. unfold line_commands.
  rewrite <- (split_strip line). fold (tokens line). by rewrite Ht.
Qed.

Lemma run_commands_app cmds1 cmds2 (w : World) :
  run_commands popen (cmds1 ++ cmds2) w
  = run_commands popen cmds2 (run_commands popen cmds1 w).
Proof. unfold run_commands. apply fold_left_app. Qed.

Lemma download_lines_ok raw ddir decompress lines w :
  (decompress = true -> is_Some ddir) ->
  Forall (fun l => tokens l = [] \/ length (tokens l) = 2) lines ->
  download_lines World popen raw ddir decompress lines w
  = (Ok tt,
     run_commands popen
       (flat_map (line_commands raw ddir decompress) lines) w).
Proof.
  intros Hdir Hall. revert w.
  induction Hall as [|l lines [Hl|Hl] _ IH]; intros w; [done| |].
  - rewrite download_lines_skip, IH by done.
    cbn [flat_map]. by rewrite line_commands_nil.
  - rewrite download_lines_step, IH by done.
    cbn [flat_map]. by rewrite run_commands_app.
Qed.

Lemma download_lines_stop raw ddir decompress pre bad post w :
  (decompress = true -> is_Some ddir) ->
  Forall (fun l => tokens l = [] \/ length (tokens l) = 2) pre ->
  tokens bad ≠ [] -> length (tokens bad) ≠ 2 ->
  download_lines World popen raw ddir decompress (pre ++ bad :: post) w
  = (Raise ValueError,
     run_commands popen (flat_map (line_commands raw ddir decompress) pre) w).
Proof.
  intros Hdir Hall Hne Hlen. revert w.
  induction Hall as [|l lines [Hl|Hl] _ IH]; intros w.
  - by apply download_lines_bad.
  - cbn [app]. rewrite download_lines_skip, IH by done.
    cbn [flat_map]. by rewrite line_commands_nil.
  - cbn [app]. rewrite download_lines_step, IH by done.
    cbn [flat_map]. by rewrite run_commands_app.
Qed.

Lemma setup_dirs_decompress raw ddir decompress (w : World) :
  decompress = true ->
  is_Some (setup_dirs World abspath isdir make_dir raw ddir decompress w).1.2.
Proof. intros ->. unfold setup_dirs. by eexists. Qed.

Lemma script_lines_tokens file_lines :
  Forall (fun l => tokens l = [] \/ length (tokens l) = 2) file_lines ->
  Forall (fun l => tokens l = [] \/ length (tokens l) = 2)
    (script_lines file_lines).
Proof.
  intros Hall. unfold script_lines. apply Forall_forall.
  intros l [_ [l' [-> Hin]]%list_elem_of_fmap]%list_elem_of_filter.
  rewrite tokens_strip. rewrite Forall_forall in Hall. by apply Hall.
Qed.

Lemma script_lines_commands raw ddir decompress file_lines :
  flat_map (line_commands raw ddir decompress) (script_lines file_lines)
  = flat_map (line_commands raw ddir decompress) file_lines.
Proof.
  unfold script_lines. induction file_lines as [|l ls IH]; [done|].
  cbn [map flat_map]. rewrite filter_cons. case_decide as Hl.
  - cbn [flat_map]. by rewrite IH, line_commands_strip.
  - rewrite IH. apply strip_empty_iff in Hl. by rewrite line_commands_nil.
Qed.
End DownloadFacts.

Lemma blank_or_two_tokens l :
  blank l = true \/ length (tokens l) = 2 ->
  tokens l = [] \/ length (tokens l) = 2.
Proof. intros [Hb%tokens_nil_iff|?]; [by left | by right]. Qed.

(** X17.  When every line of the script is blank or has exactly two tokens,
    [oas_downloader] returns normally and what it does, after the directory
    setup, is to run the commands of the lines in order: for each non-blank
    line a [wget] into the download directory and, with [decompress], a
    [gunzip] of that file into the decompression directory.  Blank lines
    and the first token of a line play no part. *)
Theorem oas_downloader_commands (World : Type) abspath isdir make_dir popen
    fs oas_sh_file raw ddir decompress (w : World) file_lines :
  fs oas_sh_file = Some file_lines ->
  Forall (fun l => blank l = true \/ length (tokens l) = 2) file_lines ->
  let st := setup_dirs World abspath isdir make_dir raw ddir decompress w in
  oas_downloader World abspath isdir make_dir popen fs oas_sh_file raw ddir
    decompress w
  = (Ok tt,
     run_commands popen
       (flat_map (line_commands st.1.1 st.1.2 decompress) file_lines) st.2).
Proof.
  intros Hfs Hall st. unfold oas_downloader. fold st.
  pose proof (setup_dirs_decompress World abspath isdir make_dir raw ddir
                decompress w) as Hdir. fold st in Hdir.
  destruct st as [[raw' ddir'] w']. cbn [fst snd] in *.
  unfold open. rewrite Hfs.
  rewrite (download_lines_ok World popen raw' ddir' decompress _ w' Hdir).
  - by rewrite script_lines_commands.
  - apply script_lines_tokens.
    eapply Forall_impl; [exact Hall|]. apply blank_or_two_tokens.
Qed.

Lemma oas_downloader_commands_witness :
  let machine := logging_popen (fun _ _ => ("", "", 0%Z)) in
  (script_fs "./download_heavy.txt" = Some mock_script /\
   Forall (fun l => blank l = true \/ length (tokens l) = 2) mock_script) /\
  oas_downloader (list string) work_abspath (fun _ _ => true)
    (fun _ w => w) machine script_fs "./download_heavy.txt"
    "./data/raw/gz/heavy" (Some "./data/raw/csv/heavy") true []
  = (Ok tt,
     [wget_cmd "/work/data/raw/gz/heavy/ERR1_Heavy_IGHG.csv.gz"
        "http://host/oas/ERR1_Heavy_IGHG.csv.gz";
      gunzip_cmd "/work/data/raw/gz/heavy/ERR1_Heavy_IGHG.csv.gz"
        "/work/data/raw/csv/heavy/ERR1_Heavy_IGHG.csv";
      wget_cmd "/work/data/raw/gz/heavy/ERR2_Light_Bulk.csv.gz"
        "http://host/oas/ERR2_Light_Bulk.csv.gz";
      gunzip_cmd "/work/data/raw/gz/heavy/ERR2_Light_Bulk.csv.gz"
        "/work/data/raw/csv/heavy/ERR2_Light_Bulk.csv"]).
Proof.
  intros machine.
  assert (Hall : Forall (fun l => blank l = true \/ length (tokens l) = 2)
                   mock_script).
  { repeat constructor; first [by left | by right]. }
  split; [by split|].
  rewrite (oas_downloader_commands (list string) work_abspath
             (fun _ _ => true) (fun _ w => w) machine script_fs
             "./download_heavy.txt" "./data/raw/gz/heavy"
             (Some "./data/raw/csv/heavy") true [] mock_script eq_refl Hall).
  vm_compute. reflexivity.
Defined.

(** X18.  A non-blank line that does not have exactly two tokens stops the
    download with [ValueError]: the commands of the lines before it have
    run, nothing of that line or of the lines after it has. *)
Theorem oas_downloader_bad_line (World : Type) abspath isdir make_dir popen
    fs oas_sh_file raw ddir decompress (w : World) pre bad post :
  fs oas_sh_file = Some (pre ++ bad :: post) ->
  Forall (fun l => blank l = true \/ length (tokens l) = 2) pre ->
  blank bad = false ->
  length (tokens bad) ≠ 2 ->
  let st := setup_dirs World abspath isdir make_dir raw ddir decompress w in
  oas_downloader World abspath isdir make_dir popen fs oas_sh_file raw ddir
    decompress w
  = (Raise ValueError,
     run_commands popen
       (flat_map (line_commands st.1.1 st.1.2 decompress) pre) st.2).
Proof.
  intros Hfs Hall Hnb Hlen st. unfold oas_downloader. fold st.
  pose proof (setup_dirs_decompress World abspath isdir make_dir raw ddir
                decompress w) as Hdir. fold st in Hdir.
  destruct st as [[raw' ddir'] w']. cbn [fst snd] in *.
  unfold open. rewrite Hfs.
  assert (Hne : tokens bad ≠ []).
  { intros Ht%tokens_nil_iff. congruence. }
  assert (Hsplit : script_lines (pre ++ bad :: post)
                   = script_lines pre ++ strip bad :: script_lines post).
  { unfold script_lines. rewrite map_app, filter_app. cbn [map].
    rewrite filter_cons, decide_True; [done|].
    intros Hs%strip_empty_iff. done. }
  rewrite Hsplit.
  rewrite (download_lines_stop World popen raw' ddir' decompress _ _ _ w' Hdir).
  - by rewrite script_lines_commands.
  - apply script_lines_tokens.
    eapply Forall_impl; [exact Hall|]. apply blank_or_two_tokens.
  - by rewrite tokens_strip.
  - by rewrite tokens_strip.
Qed.

Lemma oas_downloader_bad_line_witness :
  let machine := logging_popen (fun _ _ => ("", "", 0%Z)) in
  let fs : filesystem := fun _ => Some (mock_script ++ ["wget -c http://host/x.gz"] ++ []) in
  (fs "s" = Some (mock_script ++ "wget -c http://host/x.gz" :: []) /\
   Forall (fun l => blank l = true \/ length (tokens l) = 2) mock_script /\
   blank "wget -c http://host/x.gz" = false /\
   length (tokens "wget -c http://host/x.gz") ≠ 2) /\
  oas_downloader (list string) work_abspath (fun _ _ => true)
    (fun _ w => w) machine fs "s" "./raw" None false []
  = (Raise ValueError,
     [wget_cmd "/work/raw/ERR1_Heavy_IGHG.csv.gz"
        "http://host/oas/ERR1_Heavy_IGHG.csv.gz";
      wget_cmd "/work/raw/ERR2_Light_Bulk.csv.gz"
        "http://host/oas/ERR2_Light_Bulk.csv.gz"]).
Proof.
  intros machine fs.
  assert (Hall : Forall (fun l => blank l = true \/ length (tokens l) = 2)
                   mock_script).
  { repeat constructor; first [by left | by right]. }
  assert (Hlen : length (tokens "wget -c http://host/x.gz") ≠ 2)
    by (vm_compute; lia).
  split; [by split_and!|].
  rewrite (oas_downloader_bad_line (list string) work_abspath
             (fun _ _ => true) (fun _ w => w) machine fs "s" "./raw" None
             false [] mock_script "wget -c http://host/x.gz" []
             eq_refl Hall eq_refl Hlen).
  vm_compute. reflexivity.
Defined.

(** ** The name of the decompressed file *)

Lemma rstrip_chars_all chars s :
  Forall (fun c => c ∈ chars) (list_ascii_of_string s) ->
  rstrip_chars chars s = EmptyString.
Proof.
  induction s as [|c s IH]; [done|]. cbn [list_ascii_of_string rstrip_chars].
  intros [Hc Hs]%Forall_cons. rewrite (IH Hs).
  by rewrite bool_decide_eq_true_2.
Qed.

Lemma rstrip_chars_app chars s t :
  Forall (fun c => c ∈ chars) (list_ascii_of_string t) ->
  rstrip_chars chars (s +:+ t) = rstrip_chars chars s.
Proof.
  intros Ht. induction s as [|c s IH].
  - change (EmptyString +:+ t) with t. by apply rstrip_chars_all.
  - change (String c s +:+ t) with (String c (s +:+ t)).
    cbn [rstrip_chars]. by rewrite IH.
Qed.

Lemma rstrip_chars_empty_last chars s :
  rstrip_chars chars s = EmptyString ->
  match last_char s with Some c => c ∈ chars | None => True end.
Proof.
  induction s as [|c s IH]; [done|]. cbn [rstrip_chars].
  destruct (rstrip_chars chars s) as [|c' r] eqn:Hr; [|done].
  destruct (bool_decide (c ∈ chars)) eqn:Hc; [|done]. intros _.
  apply bool_decide_eq_true in Hc.
  destruct s as [|c'' s]; [done|]. by apply IH.
Qed.

Lemma rstrip_chars_fixed chars s :
  rstrip_chars chars s = s <->
  match last_char s with Some c => c ∉ chars | None => True end.
Proof.
  induction s as [|c s IH]; [done|]. cbn [rstrip_chars].
  destruct s as [|c' s].
  - cbn. destruct (bool_decide (c ∈ chars)) eqn:Hc.
    + apply bool_decide_eq_true in Hc. split; [done | tauto].
    + apply bool_decide_eq_false in Hc. tauto.
  - change (last_char (String c (String c' s)))
      with (last_char (String c' s)).
    destruct (rstrip_chars chars (String c' s)) as [|c'' r] eqn:Hr.
    + apply rstrip_chars_empty_last in Hr.
      destruct (last_char (String c' s)) as [cl|] eqn:Hl.
      * split; [|tauto]. by destruct (bool_decide (c ∈ chars)).
      * destruct IH as [_ IH]. by specialize (IH I).
    + rewrite <- IH. split; [by intros [= -> ->] | by intros ->].
Qed.

Lemma rstrip_chars_last chars s :
  match last_char (rstrip_chars chars s) with
  | Some c => c ∉ chars
  | None => True
  end.
Proof.
  induction s as [|c s IH]; [done|]. cbn [rstrip_chars].
  destruct (rstrip_chars chars s) as [|c' r] eqn:Hr.
  - destruct (bool_decide (c ∈ chars)) eqn:Hc; [done|].
    by apply bool_decide_eq_false in Hc.
  - exact IH.
Qed.

(** X19.  [rstrip('.gz')] removes characters, not the suffix: the name of
    the decompressed file is the compressed name without its trailing run
    of the characters [.], [g] and [z].  For a name [stem.gz] the result is
    [stem] exactly when [stem] does not itself end in one of these three
    characters; in every case the result does not end in one of them. *)
Theorem decompressed_name stem :
  rstrip_chars gz_chars (stem +:+ ".gz") = rstrip_chars gz_chars stem /\
  (rstrip_chars gz_chars (stem +:+ ".gz") = stem <->
   match last_char stem with Some c => c ∉ gz_chars | None => True end) /\
  match last_char (rstrip_chars gz_chars (stem +:+ ".gz")) with
  | Some c => c ∉ gz_chars
  | None => True
  end.
Proof.
  assert (Happ : rstrip_chars gz_chars (stem +:+ ".gz")
                 = rstrip_chars gz_chars stem).
  { apply rstrip_chars_app. unfold gz_chars. cbn.
    repeat constructor; apply (bool_decide_unpack (_ ∈ _)); reflexivity. }
  split_and!; [done | | apply rstrip_chars_last].
  rewrite Happ. apply rstrip_chars_fixed.
Qed.

Example decompressed_name_shortened :
  map (fun name => rstrip_chars gz_chars name)
    ["ERR1_Heavy_IGHG.csv.gz"; "catalog.gz"; "reads.fastq.gz"; "x.tgz"]
  = ["ERR1_Heavy_IGHG.csv"; "catalo"; "reads.fastq"; "x.t"].
Proof. vm_compute. reflexivity. Qed.
